(** * tute_demo.py: distributed pattern counting over a tweet file

    A shallow embedding of [src/tute_demo.py].  Every process of an MPI
    run reads the whole input, counts the patterns of "its" rows into a
    dict (the CountTable), and then either collects the other tables
    (rank 0, [master_tweet_processor]) or serves its table on request
    (every other rank, [slave_tweet_processor]).

    Conventions of the embedding:
    - Python ints are [Z]; [%] on ints is [Z.modulo] (both are floored),
      with the division by zero written out.
    - Python [str] is [string], one character per code point below 128:
      the regular expressions answer for ASCII texts and patterns only.
    - A dict from str to int (a CountTable) is a [gmap string Z]: tables
      are compared key by key, so insertion order is dropped.
    - Exceptions, [exit] and a receive that never completes are explicit
      outcomes; [print], [comm.send] and [comm.recv] are recorded in an
      action trace. *)

From stdpp Require Import base gmap strings list fin_maps sorting.
From Stdlib Require Import ZArith Ascii String Lia.

#[local] Set Warnings "-register-all".
Local Open Scope string_scope.
Local Open Scope Z_scope.
Local Open Scope list_scope.

(** ** Python values *)

Abbreviation CountTable := (gmap string Z).

(** The objects the program handles.  [PCounts] is a dict whose keys are
    str and whose values are int (the shape of every table the program
    builds); [PDict] is a dict as decoded from a JSON object or yielded by
    [csv.DictReader], with insertion order kept. *)
Inductive pyobj : Type :=
| PNone
| PInt (z : Z)
| PStr (s : string)
| PCounts (t : CountTable)
| PDict (items : list (string * pyobj)).

(** The exception classes that the modelled code can raise or catch. *)
Inductive exn : Type :=
| UnboundLocalError
| AttributeError
| TypeError
| KeyError
| ValueError
| ZeroDivisionError.

(** [isinstance(e, ValueError)] for the classes above: none of the others
    derives from ValueError. *)
Definition is_ValueError (e : exn) : bool :=
  match e with ValueError => true | _ => false end.

(** How a computation stops without a value: an exception propagates, the
    process exits with a status, or it waits for ever in [comm.recv].
    [Unmodelled] is not a behaviour of the program: it marks a run that
    leaves what the embedding covers of regular expressions (see
    [re_compile] and [re_findall]), where the program itself returns a
    result or raises [re.error]; no handler catches it, and no statement
    below speaks of the program on such a run. *)
Inductive abort : Type :=
| Raised (e : exn)
| Exited (status : Z)
| Blocked
| Unmodelled.

Inductive outcome (A : Type) : Type :=
| Ok (a : A)
| Abort (b : abort).
Arguments Ok {A} a.
Arguments Abort {A} b.

(** What a process does, in program order.  [AMerge d] is internal: it
    marks the point where the received table [d] is folded into the
    Coordinator's [occurrences] (lines 192-194). *)
Inductive action : Type :=
| APrint (args : list pyobj)
| ASend (obj : pyobj) (dest tag : Z)
| ARecv (source tag : Z) (obj : pyobj)
| AMerge (d : pyobj).

(** ** The effect monad: an action trace and an outcome *)

Definition M (A : Type) : Type := (list action * outcome A)%type.

#[export] Instance M_ret : MRet M := fun A a => ([], Ok a).
#[export] Instance M_bind : MBind M := fun A B f m =>
  match m with
  | (t1, Ok a) => let '(t2, r) := f a in (t1 ++ t2, r)
  | (t1, Abort b) => (t1, Abort b)
  end.

#[export] Instance M_fmap : FMap M := fun A B f m =>
  match m with
  | (t, Ok a) => (t, Ok (f a))
  | (t, Abort b) => (t, Abort b)
  end.

Definition emit (a : action) : M unit := ([a], Ok tt).
Definition raise {A} (e : exn) : M A := ([], Abort (Raised e)).
Definition print (args : list pyobj) : M unit := emit (APrint args).

(** [try: body except <cls>: handler], where [catches] decides
    [isinstance(e, cls)]. *)
Definition try_except {A} (body : M A) (catches : exn -> bool)
    (handler : M A) : M A :=
  match body with
  | (t1, Abort (Raised e)) =>
      if catches e then let '(t2, r) := handler in (t1 ++ t2, r)
      else (t1, Abort (Raised e))
  | other => other
  end.

(** [for x in xs: body x], for a body without a result. *)
Fixpoint for_each {A} (xs : list A) (body : A -> M unit) : M unit :=
  match xs with
  | [] => mret tt
  | x :: xs' => body x ;; for_each xs' body
  end.

(** [range(n)]. *)
Definition range (n : Z) : list Z := seqZ 0 n.

(** ** The Merge Engine (lines 143-144 and 193-194) *)

(** [counts[k] = counts.setdefault(k, 0) + v] *)
Definition add_count (counts : CountTable) (k : string) (v : Z) : CountTable :=
  <[k := default 0 (counts !! k) + v]> counts.

(** [for k, v in results.items(): counts[k] = counts.setdefault(k, 0) + v] *)
Definition merge (counts results : CountTable) : CountTable :=
  map_fold (fun k v acc => add_count acc k v) counts results.

(** ** Strings *)

(** [s.startswith(p)] *)
Fixpoint starts_with (p s : string) : bool :=
  match p, s with
  | EmptyString, _ => true
  | String a p', String b s' => Ascii.eqb a b && starts_with p' s'
  | String _ _, EmptyString => false
  end.

(** [a in b] on two str: [a] occurs in [b] as a contiguous substring. *)
Fixpoint str_in (a b : string) : bool :=
  starts_with a b ||
  match b with
  | EmptyString => false
  | String _ b' => str_in a b'
  end.

(** What is left of [s] after its prefix [p], if [s] starts with [p]. *)
Fixpoint strip_prefix (p s : string) : option string :=
  match p, s with
  | EmptyString, _ => Some s
  | String a p', String b s' =>
      if Ascii.eqb a b then strip_prefix p' s' else None
  | String _ _, EmptyString => None
  end.

(** A str of ASCII characters only. *)
Definition is_ascii_char (c : ascii) : bool := (nat_of_ascii c <? 128)%nat.

Definition is_ascii (s : string) : bool :=
  forallb is_ascii_char (list_ascii_of_string s).

(** The double quote, line feed and carriage return characters. *)
Definition dq : string := String "034"%char EmptyString.
Definition LF : ascii := "010"%char.
Definition CR : ascii := "013"%char.

(** ** The regular expressions of the program

    Python's [re] module is a library; the embedding gives the meaning of
    the patterns the program uses, on ASCII texts.  There [\w] is a
    letter, a digit or the underscore, as in Python; what [\w] and [\b]
    mean on the other characters is left out: [re_findall] answers
    [Unmodelled] for a text or a pattern that is not ASCII. *)

Definition is_word (c : ascii) : bool :=
  let n := nat_of_ascii c in
  ((48 <=? n) && (n <=? 57) || (65 <=? n) && (n <=? 90) ||
   (97 <=? n) && (n <=? 122) || (n =? 95))%nat.

(** The characters with a special meaning in a pattern. *)
Definition is_meta (c : ascii) : bool :=
  existsb (Ascii.eqb c)
    ["."; "^"; "$"; "*"; "+"; "?"; "{"; "}"; "["; "]"; "\"; "|"; "("; ")"]%char.

(** The fragment: a sequence of literal ASCII characters and [\b],
    optionally closed by [\w+]. *)
Inductive atom : Type :=
| ALit (c : ascii)
| ABoundary
| AWordPlus.

(** [re.compile] on the fragment; [None] for any other pattern: the
    embedding does not say what the library does with it. *)
Fixpoint re_compile (p : string) : option (list atom) :=
  match p with
  | EmptyString => Some []
  | String "\" (String "w" (String "+" EmptyString)) => Some [AWordPlus]
  | String "\" (String "b" rest) => cons ABoundary <$> re_compile rest
  | String c rest =>
      if is_meta c || negb (is_ascii_char c) then None
      else cons (ALit c) <$> re_compile rest
  end.

(** [\b] between the character before the position ([prev], if any) and
    the rest [s] of the text: exactly one side is a word character. *)
Definition at_boundary (prev : option ascii) (s : string) : bool :=
  xorb (from_option is_word false prev)
       (match s with String c _ => is_word c | EmptyString => false end).

(** The longest prefix of word characters. *)
Fixpoint take_word (s : string) : string :=
  match s with
  | String c s' => if is_word c then String c (take_word s') else EmptyString
  | EmptyString => EmptyString
  end.

(** The text matched by the pattern at the head of [s], if it matches
    there.  [\w+] is greedy and closes the pattern, so nothing backtracks. *)
Fixpoint match_here (p : list atom) (prev : option ascii) (s : string)
    : option string :=
  match p with
  | [] => Some EmptyString
  | ALit c :: p' =>
      match s with
      | String d s' =>
          if Ascii.eqb c d then String d <$> match_here p' (Some d) s'
          else None
      | EmptyString => None
      end
  | ABoundary :: p' =>
      if at_boundary prev s then match_here p' prev s else None
  | AWordPlus :: _ =>
      match take_word s with
      | EmptyString => None
      | run => Some run
      end
  end.

(** The scan of [re.findall]: leftmost matches, left to right, without
    overlap.  [skip] counts the characters still covered by the last
    match; after an empty match the scan moves on by one character. *)
Fixpoint findall_from (p : list atom) (prev : option ascii) (skip : nat)
    (s : string) : list string :=
  match skip with
  | S k =>
      match s with
      | String c s' => findall_from p (Some c) k s'
      | EmptyString => []
      end
  | O =>
      match match_here p prev s with
      | Some m =>
          m :: match s with
               | String c s' =>
                   findall_from p (Some c) (String.length m - 1) s'
               | EmptyString => []
               end
      | None =>
          match s with
          | String c s' => findall_from p (Some c) 0 s'
          | EmptyString => []
          end
      end
  end.

(** [re.findall(pattern, string)], for a pattern of the fragment and an
    ASCII text; a [string] that is not a str is a TypeError. *)
Definition re_findall (pattern : string) (text : pyobj) : M (list string) :=
  match re_compile pattern with
  | None => ([], Abort Unmodelled)
  | Some p =>
      match text with
      | PStr s =>
          if is_ascii s then mret (findall_from p None 0 s)
          else ([], Abort Unmodelled)
      | _ => raise TypeError
      end
  end.

(** The two substitutions of [tweet_to_json].  The first pattern is
    [dq source dq : dq <a .*? > /*? </a> dq] (with [dq] the double quote):
    the opening text, as few characters other than a line feed as
    possible, a [>], slashes, and the closing text. *)
Definition anchor_open : string := dq +:+ "source" +:+ dq +:+ ":" +:+ dq +:+ "<a".
Definition anchor_close : string := "</a>" +:+ dq.
Definition anchor_repl : string := dq +:+ "source" +:+ dq +:+ ":" +:+ dq +:+ dq.

Fixpoint drop_slashes (s : string) : string :=
  match s with
  | String "/" s' => drop_slashes s'
  | _ => s
  end.

(** [>/*?</a>dq] at the head of [s]: the closing text starts with [<], so
    the lazy run of slashes has to take every slash that is there. *)
Definition anchor_tail (s : string) : option string :=
  match s with
  | String ">" s' => strip_prefix anchor_close (drop_slashes s')
  | _ => None
  end.

(** [.*?>/*?</a>dq] at the head of [s]: the first place where the tail
    matches, reached without crossing a line feed. *)
Fixpoint anchor_body (s : string) : option string :=
  match anchor_tail s with
  | Some rest => Some rest
  | None =>
      match s with
      | String c s' => if Ascii.eqb c LF then None else anchor_body s'
      | EmptyString => None
      end
  end.

(** [re.sub(anchor pattern, anchor_repl, s)]; [skip] counts the characters
    still covered by the last match. *)
Fixpoint sub_source (skip : nat) (s : string) : string :=
  match s with
  | EmptyString => EmptyString
  | String c s' =>
      match skip with
      | S k => sub_source k s'
      | O =>
          match strip_prefix anchor_open s ≫= anchor_body with
          | Some rest =>
              anchor_repl +:+
              sub_source (String.length s - String.length rest - 1) s'
          | None => String c (sub_source 0 s')
          end
      end
  end.

(** [re.sub('(\r|\n)+', '', s)]: every run of line breaks is deleted. *)
Fixpoint sub_line_breaks (s : string) : string :=
  match s with
  | EmptyString => EmptyString
  | String c s' =>
      if Ascii.eqb c CR || Ascii.eqb c LF then sub_line_breaks s'
      else String c (sub_line_breaks s')
  end.

(** [re.sub(pattern, repl, string)] where [f] is the substitution on str:
    any other argument is refused with a TypeError. *)
Definition re_sub (f : string -> string) (tweet : pyobj) : M pyobj :=
  match tweet with
  | PStr s => mret (PStr (f s))
  | _ => raise TypeError
  end.

(** [json.load(fp)] reads the document from [fp.read()].  None of the
    objects above is a file: the attribute lookup fails. *)
Definition json_load (fp : pyobj) : M pyobj := raise AttributeError.

(** ** Decoding and counting one record *)

(** Lines 46-55. *)
Definition tweet_to_json (tweet : pyobj) : M pyobj :=
  tweet ← re_sub (sub_source 0) tweet;
  tweet ← re_sub sub_line_breaks tweet;
  tweet ← json_load tweet;
  mret tweet.

Definition TOPIC_REGEX : string := "#\w+".
Definition MENTION_REGEX : string := "@\w+".
Definition MASTER_RANK : Z := 0.

(** [d[k]] for a str key. *)
Definition getitem (o : pyobj) (k : string) : M pyobj :=
  match o with
  | PDict items =>
      match list_find (fun kv => bool_decide (kv.1 = k)) items with
      | Some (_, (_, v)) => mret v
      | None => raise KeyError
      end
  | PCounts t =>
      match t !! k with
      | Some z => mret (PInt z)
      | None => raise KeyError
      end
  | _ => raise TypeError
  end.

(** The loop of [count_regex] (lines 21 and 23-24):
    [counts[occurrence] = counts.setdefault(occurrence, 0) + 1] for every
    occurrence, from the empty dict. *)
Definition tally (occurrences : list string) : CountTable :=
  foldl (fun counts occurrence => add_count counts occurrence 1) ∅ occurrences.

(** Lines 14-25. *)
Definition count_regex (tweet : pyobj) (regex : string) : M CountTable :=
  text ← getitem tweet "text";
  occurrences ← re_findall regex text;
  mret (tally occurrences).

Definition trending_topics (tweet : pyobj) : M CountTable :=
  count_regex tweet TOPIC_REGEX.

Definition user_mentions (tweet : pyobj) : M CountTable :=
  count_regex tweet MENTION_REGEX.

(** Lines 134-146.  [results] is bound in none of the branches when
    [stype] is a substring of none of the three names; the loop over
    [results.items()] then raises UnboundLocalError. *)
Definition process_tweet (counts : CountTable) (stype squery : string)
    (tweet : pyobj) : M CountTable :=
  results ←
    (if str_in stype "mentions" then Some <$> user_mentions tweet
     else if str_in stype "topic" then Some <$> trending_topics tweet
     else if str_in stype "string_search" then
       let regex := "\b" +:+ squery +:+ "\b" in
       Some <$> count_regex tweet regex
     else mret None);
  match results with
  | Some results => mret (merge counts results)
  | None => raise UnboundLocalError
  end.

(** ** The Local Counter (lines 149-166) *)

(** What iterating over [csv.DictReader(f)] yields: a row as a dict, or a
    line on which the reader raises [csv.Error]. *)
Inductive csv_item : Type :=
| Row (line : list (string * pyobj))
| BadRow.

(** [print('Malformed JSON in tweet ', i)] *)
Definition malformed (i : Z) : M unit :=
  print [PStr "Malformed JSON in tweet "; PInt i].

(** The inner [try] statement (lines 158-162), on the local variables
    [tweet] ([None] while it is unbound) and [occurrences]; it returns
    their values after the statement.  The handler is entered with [tweet]
    as the failing statement left it. *)
Definition decode_and_count (i : Z) (stype squery : string)
    (tweet : option pyobj) (occurrences : CountTable)
    : M (option pyobj * CountTable) :=
  try_except
    (raw ← from_option mret (raise UnboundLocalError) tweet;
     decoded ← tweet_to_json raw;
     try_except
       (occurrences ← process_tweet occurrences stype squery decoded;
        mret (Some decoded, occurrences))
       is_ValueError
       (malformed i ;; mret (Some decoded, occurrences)))
    is_ValueError
    (malformed i ;; mret (tweet, occurrences)).

(** [i % processes == rank] *)
Definition belongs (i processes rank : Z) : M bool :=
  if processes =? 0 then raise ZeroDivisionError
  else mret (i mod processes =? rank).

(** The body of the [for] loop (lines 156-162): the partition test guards
    the assignment of [tweet] only; the [try] statement follows it at the
    level of the [if], so it runs for every row. *)
Definition process_row (rank processes : Z) (stype squery : string)
    (i : Z) (line : list (string * pyobj))
    (tweet : option pyobj) (occurrences : CountTable)
    : M (option pyobj * CountTable) :=
  mine ← belongs i processes rank;
  tweet ← (if mine : bool then Some <$> getitem (PDict line) "value"
           else mret tweet);
  decode_and_count i stype squery tweet occurrences.

(** The [for] loop over [enumerate(rows)] inside [try ... except
    csv.Error] (lines 154-164).  Only the iteration raises [csv.Error];
    its handler prints and leaves the loop with the table built so far. *)
Fixpoint process_rows (rank processes : Z) (stype squery : string)
    (i : Z) (tweet : option pyobj) (occurrences : CountTable)
    (rows : list csv_item) : M CountTable :=
  match rows with
  | [] => mret occurrences
  | BadRow :: _ =>
      print [PStr "Could not read line in csv."] ;; mret occurrences
  | Row line :: rows' =>
      '(tweet, occurrences) ←
        process_row rank processes stype squery i line tweet occurrences;
      process_rows rank processes stype squery (i + 1) tweet occurrences rows'
  end.

(** [input_file] stands for the rows of the opened file. *)
Definition process_tweets (rank : Z) (input_file : list csv_item)
    (processes : Z) (stype squery : string) : M CountTable :=
  process_rows rank processes stype squery 0 None ∅ input_file.

(** ** The communicator *)

(** A message waiting to be received: who sent it, its tag, its payload. *)
Record envelope : Type := Envelope {
  e_source : Z;
  e_tag : Z;
  e_obj : pyobj
}.

(** [comm] as one process sees it: its rank, the number of processes, and
    the messages that reach it, in arrival order. *)
Record communicator : Type := Communicator {
  Get_rank : Z;
  Get_size : Z;
  mailbox : list envelope
}.

(** [comm.send(obj, dest=dest, tag=tag)] *)
Definition send (obj : pyobj) (dest tag : Z) : M unit :=
  emit (ASend obj dest tag).

(** The first message from [source] with tag [tag], and the mailbox
    without it. *)
Fixpoint take_message (source tag : Z) (mb : list envelope)
    : option (pyobj * list envelope) :=
  match mb with
  | [] => None
  | e :: mb' =>
      if (e_source e =? source) && (e_tag e =? tag) then Some (e_obj e, mb')
      else prod_map id (cons e) <$> take_message source tag mb'
  end.

(** [comm.recv(source=source, tag=tag)]: blocks until such a message is
    there, for ever when none comes. *)
Definition recv (mb : list envelope) (source tag : Z)
    : M (pyobj * list envelope) :=
  match take_message source tag mb with
  | Some (obj, mb') => emit (ARecv source tag obj) ;; mret (obj, mb')
  | None => ([], Abort Blocked)
  end.

(** ** The Coordinator (lines 169-201) *)

(** The second loop of [marshall_tweet] (lines 176-178). *)
Fixpoint recv_counts (mb : list envelope) (counts : list pyobj)
    (ranks : list Z) : M (list pyobj) :=
  match ranks with
  | [] => mret counts
  | i :: ranks' =>
      '(d, mb) ← recv mb (i + 1) MASTER_RANK;
      recv_counts mb (counts ++ [d]) ranks'
  end.

(** Lines 169-179. *)
Definition marshall_tweet (comm : communicator) : M (list pyobj) :=
  let processes := Get_size comm in
  for_each (range (processes - 1))
    (fun i => send (PStr "return_data") (i + 1) (i + 1)) ;;
  recv_counts (mailbox comm) [] (range (processes - 1)).

(** [for k, v in d.items(): occurrences[k] = occurrences.setdefault(k, 0) + v]
    for a dict [d] of any content: adding a value that is not an int to
    an int is a TypeError. *)
Fixpoint merge_items (occurrences : CountTable) (items : list (string * pyobj))
    : M CountTable :=
  match items with
  | [] => mret occurrences
  | (k, PInt v) :: items' => merge_items (add_count occurrences k v) items'
  | _ :: _ => raise TypeError
  end.

(** One round of the loop [for d in counts] (lines 192-194); an object
    without [items] is an AttributeError. *)
Definition merge_received (occurrences : CountTable) (d : pyobj)
    : M CountTable :=
  emit (AMerge d) ;;
  match d with
  | PCounts t => mret (merge occurrences t)
  | PDict items => merge_items occurrences items
  | _ => raise AttributeError
  end.

Fixpoint merge_all (occurrences : CountTable) (counts : list pyobj)
    : M CountTable :=
  match counts with
  | [] => mret occurrences
  | d :: counts' =>
      occurrences ← merge_received occurrences d;
      merge_all occurrences counts'
  end.

(** Lines 182-201.  The result is the table handed to [print_output];
    the presentation itself (lines 105-131) is modelled apart, on the
    items of the dict in insertion order (see [print_output]). *)
Definition master_tweet_processor (comm : communicator)
    (input_file : list csv_item) (stype squery : string) : M CountTable :=
  let rank := Get_rank comm in
  let size := Get_size comm in
  occurrences ← process_tweets rank input_file size stype squery;
  if 1 <? size then
    counts ← marshall_tweet comm;
    occurrences ← merge_all occurrences counts;
    for_each (range (size - 1))
      (fun i => send (PStr "exit") (i + 1) (i + 1)) ;;
    mret occurrences
  else mret occurrences.

(** ** The Worker Agent (lines 204-227) *)

(** What one round of the [while True] loop leaves behind. *)
Inductive next : Type :=
| Continue
| Terminate (status : Z).

(** The body of the loop after [in_comm = comm.recv(...)] (lines 221-227). *)
Definition slave_command (rank : Z) (counts : CountTable) (in_comm : pyobj)
    : list action * next :=
  match in_comm with
  | PStr c =>
      if str_in c "return_data" then
        ([APrint [PStr "Process: "; PInt rank; PStr " sending back ";
                  PInt (Z.of_nat (size counts)); PStr " items."];
          ASend (PCounts counts) MASTER_RANK MASTER_RANK], Continue)
      else if str_in c "exit" then ([], Terminate 0)
      else ([], Continue)
  | _ => ([], Continue)
  end.

(** The [while True] loop over the payloads that reach the worker from
    the Coordinator with the worker's rank as tag, in arrival order; when
    they run out the worker stays in [comm.recv]. *)
Fixpoint slave_loop (rank : Z) (counts : CountTable) (incoming : list pyobj)
    : list action * abort :=
  match incoming with
  | [] => ([], Blocked)
  | in_comm :: incoming' =>
      let received := ARecv MASTER_RANK rank in_comm in
      match slave_command rank counts in_comm with
      | (acts, Terminate status) => (received :: acts, Exited status)
      | (acts, Continue) =>
          let '(rest, stop) := slave_loop rank counts incoming' in
          (received :: acts ++ rest, stop)
      end
  end.

(** The payloads of the messages from [source] with tag [tag]. *)
Definition channel (source tag : Z) (mb : list envelope) : list pyobj :=
  e_obj <$> filter (fun e => e_source e = source ∧ e_tag e = tag) mb.

(** Lines 204-227.  The function never returns. *)
Definition slave_tweet_processor (comm : communicator)
    (input_file : list csv_item) (stype squery : string) : list action * abort :=
  let rank := Get_rank comm in
  let size := Get_size comm in
  match process_tweets rank input_file size stype squery with
  | (t, Abort b) => (t, b)
  | (t, Ok counts) =>
      let '(t', stop) := slave_loop rank counts (channel MASTER_RANK rank (mailbox comm)) in
      (t ++ t', stop)
  end.

(** ** The command line (lines 58-101) *)

(** Lines 58-66. *)
Definition print_usage : M unit :=
  print [PStr "usage is: twitter_search_541635.py -i <input_file> [opts] where opts are:"] ;;
  print [PStr "  -[tms] <query>       flag to search topics, mentions or search"] ;;
  print [PStr "                       by a query string respectively, -s requires"] ;;
  print [PStr "                       a search string. (optional, default is mentions)."].

(** The [getopt] module is a library; the embedding follows its
    functions [getopt], [do_shorts] and [short_has_arg] for a call
    without long options, as [read_arguments] makes it. *)

(** [short_has_arg(opt, shortopts)]: whether the option letter takes an
    argument; [None] when the letter is not among the options (a
    GetoptError in the library). *)
Fixpoint short_has_arg (opt : ascii) (shortopts : string) : option bool :=
  match shortopts with
  | EmptyString => None
  | String c rest =>
      if Ascii.eqb opt c && negb (Ascii.eqb c ":")
      then Some (starts_with ":" rest)
      else short_has_arg opt rest
  end.

(** ['-' + opt] *)
Definition dash (opt : ascii) : string := String "-" (String opt EmptyString).

(** [do_shorts] on the letters [optstring] of one argument; [next] is the
    argument that follows, if any.  The result is the message of the
    GetoptError, or the options read together with whether [next] was
    taken as the argument of the last of them. *)
Fixpoint do_shorts (shortopts optstring : string) (next : option string)
    : string + (list (string * string) * bool) :=
  match optstring with
  | EmptyString => inr ([], false)
  | String opt optstring' =>
      match short_has_arg opt shortopts with
      | None => inl ("option " +:+ dash opt +:+ " not recognized")
      | Some true =>
          match optstring', next with
          | EmptyString, None =>
              inl ("option " +:+ dash opt +:+ " requires argument")
          | EmptyString, Some optarg => inr ([(dash opt, optarg)], true)
          | optarg, _ => inr ([(dash opt, optarg)], false)
          end
      | Some false =>
          match do_shorts shortopts optstring' next with
          | inl msg => inl msg
          | inr (opts, taken) => inr ((dash opt, EmptyString) :: opts, taken)
          end
      end
  end.

(** The name of a long option: the text before the first [=]. *)
Fixpoint before_equals (s : string) : string :=
  match s with
  | EmptyString => EmptyString
  | String c s' => if Ascii.eqb c "=" then EmptyString
                   else String c (before_equals s')
  end.

(** [s[1:]] *)
Definition but_first (s : string) : string :=
  match s with
  | EmptyString => EmptyString
  | String _ s' => s'
  end.

Inductive getopt_result : Type :=
| Parsed (opts : list (string * string)) (args : list string)
| GetoptError (msg : string).

(** The loop of [getopt.getopt(args, shortopts)].  [skip] tells that the
    argument at the head was taken by the option before it.  With no
    long options declared, every argument that starts with [--] and is
    not [--] itself is not recognized. *)
Fixpoint getopt_from (shortopts : string) (opts : list (string * string))
    (skip : bool) (args : list string) : getopt_result :=
  match args with
  | [] => Parsed opts []
  | a :: args' =>
      if skip then getopt_from shortopts opts false args'
      else if starts_with "-" a && negb (String.eqb a "-") then
        if String.eqb a "--" then Parsed opts args'
        else
          match strip_prefix "--" a with
          | Some long =>
              GetoptError ("option --" +:+ before_equals long
                           +:+ " not recognized")
          | None =>
              match do_shorts shortopts (but_first a) (head args') with
              | inl msg => GetoptError msg
              | inr (new, taken) =>
                  getopt_from shortopts (opts ++ new) taken args'
              end
          end
      else Parsed opts (a :: args')
  end.

Definition getopt (args : list string) (shortopts : string) : getopt_result :=
  getopt_from shortopts [] false args.

(** The loop over [opts] (lines 88-98), on the three variables it
    assigns; [sys.exit()] ends the process with status 0. *)
Fixpoint read_opts (opts : list (string * string))
    (input_file search_type search_query : string)
    : M (string * string * string) :=
  match opts with
  | [] => mret (input_file, search_type, search_query)
  | (opt, arg) :: opts' =>
      if String.eqb opt "-h" then
        print_usage ;; ([], Abort (Exited 0))
      else if str_in opt "-i" then
        read_opts opts' arg search_type search_query
      else if str_in opt "-m" then
        read_opts opts' input_file search_type "mentions"
      else if str_in opt "-s" then
        read_opts opts' input_file "string_search" arg
      else read_opts opts' input_file search_type search_query
  end.

(** Lines 69-101.  [print(error)] prints the message of the error. *)
Definition read_arguments (argv : list string) : M (string * string * string) :=
  match getopt argv "hi:tms:" with
  | GetoptError msg =>
      print [PStr msg] ;; print_usage ;; ([], Abort (Exited 2))
  | Parsed opts _ => read_opts opts "" "mentions" ""
  end.

(** ** The presentation (lines 105-131)

    The table reaches these functions as a dict; here it is the list of
    its items in insertion order, which the ranking depends on. *)

(** [d.setdefault(k, 0)] *)
Definition setdefault0 (items : list (string * Z)) (k : string) : Z :=
  match list_find (fun kv => bool_decide (kv.1 = k)) items with
  | Some (_, (_, v)) => v
  | None => 0
  end.

(** Lines 105-106. *)
Definition print_matches (matches : list (string * Z)) (squery : string)
    : M unit :=
  print [PStr squery; PStr " was found "; PInt (setdefault0 matches squery);
         PStr " times."].

(** [sorted(items, key=operator.itemgetter(1))]: ascending by count,
    items with equal counts in their original order. *)
Fixpoint insert_by_count (x : string * Z) (l : list (string * Z))
    : list (string * Z) :=
  match l with
  | [] => [x]
  | y :: l' => if x.2 <=? y.2 then x :: y :: l'
               else y :: insert_by_count x l'
  end.

Fixpoint sorted_by_count (items : list (string * Z)) : list (string * Z) :=
  match items with
  | [] => []
  | x :: items' => insert_by_count x (sorted_by_count items')
  end.

(** [reversed(sorted_counts[-10:])] *)
Definition top_ten (items : list (string * Z)) : list (string * Z) :=
  let sorted_counts := sorted_by_count items in
  reverse (drop (List.length sorted_counts - 10) sorted_counts).

(** [print(user, ':', times)] *)
Definition print_count (entry : string * Z) : M unit :=
  let '(user, times) := entry in print [PStr user; PStr ":"; PInt times].

(** Lines 109-114. *)
Definition print_mentions (mentions : list (string * Z)) : M unit :=
  print [PStr "The top ten users mentioned are:"] ;;
  for_each (top_ten mentions) print_count.

(** Lines 117-122. *)
Definition print_topics (topics : list (string * Z)) : M unit :=
  print [PStr "The top ten trending topics are:"] ;;
  for_each (top_ten topics) print_count.

(** Lines 125-131. *)
Definition print_output (results : list (string * Z)) (stype squery : string)
    : M unit :=
  if str_in stype "mentions" then print_mentions results
  else if str_in stype "topics" then print_topics results
  else if str_in stype "string_search" then print_matches results squery
  else mret tt.

(** * Vocabulary of the statements *)

(** The count of a key after a merge: absent when it is in neither
    table, otherwise the sum of its two counts, an absent one being 0. *)
Definition merged_count (x y : option Z) : option Z :=
  match x, y with
  | None, None => None
  | _, _ => Some (default 0 x + default 0 y)
  end.

(** The count that [n] occurrences leave in a table. *)
Definition seen (n : nat) : option Z :=
  match n with
  | O => None
  | S _ => Some (Z.of_nat n)
  end.

(** A query made of one or more word characters. *)
Definition is_word_query (q : string) : bool :=
  match q with
  | EmptyString => false
  | String _ _ => forallb is_word (list_ascii_of_string q)
  end.

(** The first [n] characters of [s] are there and are word characters. *)
Fixpoint word_run (n : nat) (s : string) : bool :=
  match n, s with
  | O, _ => true
  | S n', String d s' => is_word d && word_run n' s'
  | S _, EmptyString => false
  end.

(** [q] stands at the head of [s] as a whole word: [s] starts with [q],
    no word character stands before it ([prev], if any) and none after. *)
Definition stands_as_word (q : string) (prev : option ascii) (s : string)
    : bool :=
  match strip_prefix q s with
  | Some rest =>
      negb (from_option is_word false prev) &&
      negb (match rest with String d _ => is_word d | EmptyString => false end)
  | None => false
  end.

(** The number of places of a text where [q] stands as a whole word. *)
Fixpoint whole_words (q : string) (prev : option ascii) (s : string) : nat :=
  ((if stands_as_word q prev s then 1 else 0) +
   match s with
   | EmptyString => 0
   | String d s' => whole_words q (Some d) s'
   end)%nat.

(** A decoded record with the given text. *)
Definition decoded (text : string) : pyobj := PDict [("text", PStr text)].

(** [c] occurs in [s] as a contiguous substring. *)
Definition is_substring (c s : string) : Prop :=
  ∃ pre post, s = pre +:+ c +:+ post.

Definition is_str (v : pyobj) : bool :=
  match v with PStr _ => true | _ => false end.

(** An action that is neither a send nor a receive. *)
Definition is_silent (a : action) : bool :=
  match a with
  | ASend _ _ _ | ARecv _ _ _ => false
  | APrint _ | AMerge _ => true
  end.

(** The two actions of a worker that answers a request. *)
Definition answer (rank : Z) (counts : CountTable) : list action :=
  [APrint [PStr "Process: "; PInt rank; PStr " sending back ";
           PInt (Z.of_nat (size counts)); PStr " items."];
   ASend (PCounts counts) MASTER_RANK MASTER_RANK].

(** The message carried by the first envelope from [source] tagged [tag]. *)
Definition first_message (source tag : Z) (mb : list envelope) : option pyobj :=
  fst <$> take_message source tag mb.

(** The Coordinator's actions, phase by phase, for [size] processes and
    the tables [ts] of the ranks 1, 2, ... in this order. *)
Definition requests (size : Z) : list action :=
  (fun r => ASend (PStr "return_data") r r) <$> seqZ 1 (size - 1).

Definition releases (size : Z) : list action :=
  (fun r => ASend (PStr "exit") r r) <$> seqZ 1 (size - 1).

Definition receipts (ts : list CountTable) : list action :=
  imap (fun i t => ARecv (Z.of_nat i + 1) MASTER_RANK (PCounts t)) ts.

Definition merges (ts : list CountTable) : list action :=
  (fun t => AMerge (PCounts t)) <$> ts.

(** The collection pass in the words of the specification: each table is
    merged as it arrives, before the next receive. *)
Definition receipts_merged_on_arrival (ts : list CountTable) : list action :=
  mjoin (imap (fun i t => [ARecv (Z.of_nat i + 1) MASTER_RANK (PCounts t);
                           AMerge (PCounts t)]) ts).

(** A payload as the input file holds it: a JSON object with one field
    [text]. *)
Definition tweet_json (text : string) : string :=
  "{" +:+ dq +:+ "text" +:+ dq +:+ ": " +:+ dq +:+ text +:+ dq +:+ "}".

Definition record (text : string) : csv_item :=
  Row [("value", PStr (tweet_json text))].

(** The input of the scenarios A and B of the specification. *)
Definition scenario_rows : list csv_item :=
  [record "@a"; record "@a"; record "@b"; record "@c"].

(** A run of three processes in which the table of rank 2 reaches the
    Coordinator before the table of rank 1. *)
Definition table_a : CountTable := {["@a" := 1]}.
Definition table_b : CountTable := {["@b" := 1]}.

Definition rank2_first : communicator :=
  Communicator 0 3 [Envelope 2 MASTER_RANK (PCounts table_b);
                    Envelope 1 MASTER_RANK (PCounts table_a)].

(** The sum of all counts of a table. *)
Definition total (t : CountTable) : Z :=
  map_fold (fun _ v acc => v + acc) 0 t.

(** Every count of the table is positive. *)
Definition all_positive (t : CountTable) : Prop :=
  map_Forall (fun _ v => 0 < v) t.

(** [m] is the character [c] followed by one or more word characters. *)
Definition is_token (c : ascii) (m : string) : Prop :=
  ∃ w, m = String c w ∧ w ≠ EmptyString ∧
       forallb is_word (list_ascii_of_string w) = true.

(** The tokens of a text for the sign [c], place by place from left to
    right: wherever [c] is followed by a word character, [c] with all the
    word characters that follow it. *)
Fixpoint tokens (c : ascii) (s : string) : list string :=
  match s with
  | EmptyString => []
  | String d s' =>
      match take_word s' with
      | EmptyString => tokens c s'
      | String _ _ as run =>
          if Ascii.eqb c d then String d run :: tokens c s' else tokens c s'
      end
  end.

(** The mode selects one of the three counting functions of
    [process_tweet]. *)
Definition selects_counting (stype : string) : bool :=
  str_in stype "mentions" || str_in stype "topic"
  || str_in stype "string_search".

(** All prefixes of a string, and all its contiguous substrings. *)
Fixpoint prefixes (s : string) : list string :=
  EmptyString ::
  match s with
  | EmptyString => []
  | String c s' => String c <$> prefixes s'
  end.

Fixpoint substrings (s : string) : list string :=
  prefixes s ++
  match s with
  | EmptyString => []
  | String _ s' => substrings s'
  end.

(** The value of a key in the items of a dict. *)
Definition item (k : string) (items : list (string * pyobj)) : option pyobj :=
  (fun hit => hit.2.2) <$> list_find (fun kv => bool_decide (kv.1 = k)) items.

(** The exception that the first row of the input raises in the process
    of rank [rank]. *)
Definition first_row_error (rank : Z) (line : list (string * pyobj)) : exn :=
  if rank =? 0 then
    match item "value" line with
    | None => KeyError
    | Some (PStr _) => AttributeError
    | Some _ => TypeError
    end
  else UnboundLocalError.

Definition is_recv (a : action) : bool :=
  match a with ARecv _ _ _ => true | _ => false end.

Definition is_send (a : action) : bool :=
  match a with ASend _ _ _ => true | _ => false end.

(** The objects a process sends to rank [r] with tag [r], in order: what
    the worker of rank [r] finds on its command channel. *)
Definition commands_to (r : Z) (trace : list action) : list pyobj :=
  omap (fun a => match a with
                 | ASend obj dest tag =>
                     if (dest =? r) && (tag =? r) then Some obj else None
                 | _ => None
                 end) trace.

(** The answers of the workers of ranks 1, 2, ... holding the tables
    [ts], as envelopes for the Coordinator. *)
Definition answers (ts : list CountTable) : list envelope :=
  imap (fun i t => Envelope (Z.of_nat i + 1) MASTER_RANK (PCounts t)) ts.

(** A received object that makes the worker send its table, and one
    that makes it exit. *)
Definition is_request (v : pyobj) : bool :=
  match v with
  | PStr c => str_in c "return_data"
  | _ => false
  end.

Definition is_release (v : pyobj) : bool :=
  match v with
  | PStr c => negb (str_in c "return_data") && str_in c "exit"
  | _ => false
  end.

(** The four lines of [print_usage]. *)
Definition usage : list action := print_usage.1.

(** The lines that [print_mentions] and [print_topics] print below their
    heading. *)
Definition count_lines (entries : list (string * Z)) : list action :=
  (fun entry => APrint [PStr entry.1; PStr ":"; PInt entry.2]) <$> entries.

(** The items with the count [c]. *)
Definition with_count (c : Z) (items : list (string * Z)) : list (string * Z) :=
  filter (fun kv => kv.2 = c) items.

(** What the trace of a worker may hold: receives, prints, and sends of
    the table [counts] to the Coordinator with the Coordinator's tag. *)
Definition worker_action (counts : CountTable) (a : action) : Prop :=
  match a with
  | ASend obj dest tag =>
      obj = PCounts counts ∧ dest = MASTER_RANK ∧ tag = MASTER_RANK
  | AMerge _ => False
  | APrint _ | ARecv _ _ _ => True
  end.

(** A result of [getopt] with the options [pre] in front. *)
Definition with_opts (pre : list (string * string)) (res : getopt_result)
    : getopt_result :=
  match res with
  | Parsed opts args => Parsed (pre ++ opts) args
  | GetoptError msg => GetoptError msg
  end.

(** What [read_arguments] does on a GetoptError with message [msg]. *)
Definition usage_error (msg : string) : M (string * string * string) :=
  (APrint [PStr msg] :: usage, Abort (Exited 2)).

(** * Properties *)

(** ** The Merge Engine *)

Section Merge.
Implicit Types a b c : CountTable.
Implicit Types k : string.

Lemma lookup_add_count a k v k' :
  add_count a k v !! k' =
  if decide (k = k') then Some (default 0 (a !! k) + v) else a !! k'.
Proof. unfold add_count. by rewrite lookup_insert. Qed.

Lemma lookup_merge a b k :
  merge a b !! k = merged_count (a !! k) (b !! k).
Proof.
  unfold merge. revert k.
  apply (map_fold_weak_ind
           (fun r m => ∀ k, r !! k = merged_count (a !! k) (m !! k))).
  - intros k. rewrite lookup_empty.
    destruct (a !! k); simpl; f_equal; lia.
  - intros i x m r Hi IH k. rewrite lookup_add_count, lookup_insert.
    destruct (decide (i = k)) as [->|Hne]; [|apply IH].
    rewrite IH, Hi. destruct (a !! k); simpl; f_equal; lia.
Qed.

Lemma merged_count_assoc (x y z : option Z) :
  merged_count (merged_count x y) z = merged_count x (merged_count y z).
Proof. destruct x, y, z; simpl; f_equal; lia. Qed.

Lemma merged_count_comm (x y : option Z) :
  merged_count x y = merged_count y x.
Proof. destruct x, y; simpl; f_equal; lia. Qed.

Lemma merge_assoc a b c : merge (merge a b) c = merge a (merge b c).
Proof.
  apply map_eq; intros k.
  rewrite !lookup_merge. apply merged_count_assoc.
Qed.

Lemma merge_comm a b : merge a b = merge b a.
Proof.
  apply map_eq; intros k.
  rewrite !lookup_merge. apply merged_count_comm.
Qed.

Lemma merge_empty_r a : merge a ∅ = a.
Proof. reflexivity. Qed.

Lemma merge_empty_l a : merge ∅ a = a.
Proof. by rewrite merge_comm. Qed.

(** C3.  The merge of two CountTables has exactly the keys of either
    input, each mapped to the sum of its counts in the two inputs (0
    where it is absent); merging is associative and commutative, and the
    empty table is its identity. *)
Theorem merge_sums_per_key_monoid :
  (∀ a b k, merge a b !! k = merged_count (a !! k) (b !! k)) ∧
  (∀ a b, dom (merge a b) = dom a ∪ dom b) ∧
  (∀ a b c, merge (merge a b) c = merge a (merge b c)) ∧
  (∀ a b, merge a b = merge b a) ∧
  (∀ a, merge a ∅ = a).
Proof.
  split_and!.
  - apply lookup_merge.
  - intros a b. apply set_eq; intros k.
    rewrite elem_of_union, !elem_of_dom, lookup_merge.
    destruct (a !! k), (b !! k); simpl; split; intros H;
      try (by eauto); destruct H as [[? H]|[? H]]; discriminate H.
  - apply merge_assoc.
  - apply merge_comm.
  - apply merge_empty_r.
Qed.
End Merge.

(** ** Substring containment *)

Lemma starts_with_spec (p s : string) :
  starts_with p s = true ↔ ∃ post, s = p +:+ post.
Proof.
  revert s. induction p as [|a p IH]; intros s; simpl.
  - split; eauto.
  - destruct s as [|b s].
    + split; [discriminate | intros [post H]; discriminate H].
    + rewrite andb_true_iff, Ascii.eqb_eq, IH. split.
      * intros [-> [post ->]]. by exists post.
      * intros [post H]. injection H as -> ->. eauto.
Qed.

Lemma str_in_spec (a b : string) : str_in a b = true ↔ is_substring a b.
Proof.
  unfold is_substring. induction b as [|c b IH]; simpl.
  - rewrite orb_false_r, starts_with_spec. split.
    + intros [post H]. by exists EmptyString, post.
    + intros [[|? ?] [post H]]; [eauto | discriminate H].
  - rewrite orb_true_iff, starts_with_spec, IH. split.
    + intros [[post H]|(pre & post & H)].
      * by exists EmptyString, post.
      * exists (String c pre), post. simpl. by rewrite H.
    + intros ([|c' pre] & post & H); simpl in H.
      * left. eauto.
      * right. injection H as _ ->. eauto.
Qed.

Lemma str_in_false (a b : string) : str_in a b = false ↔ ¬ is_substring a b.
Proof. rewrite <- str_in_spec. by destruct (str_in a b). Qed.

(** ** The Worker Agent *)

Section Worker.
Variables (rank : Z) (counts : CountTable).

Local Abbreviation answer := (answer rank counts).

Lemma slave_loop_continue in_comm acts incoming :
  slave_command rank counts in_comm = (acts, Continue) →
  slave_loop rank counts (in_comm :: incoming) =
  (ARecv MASTER_RANK rank in_comm
     :: acts ++ (slave_loop rank counts incoming).1,
   (slave_loop rank counts incoming).2).
Proof.
  intros H. simpl. rewrite H.
  by destruct (slave_loop rank counts incoming).
Qed.

Lemma slave_loop_terminate in_comm acts status incoming :
  slave_command rank counts in_comm = (acts, Terminate status) →
  slave_loop rank counts (in_comm :: incoming) =
  (ARecv MASTER_RANK rank in_comm :: acts, Exited status).
Proof. intros H. simpl. by rewrite H. Qed.

Lemma slave_command_str (c : string) :
  slave_command rank counts (PStr c) =
  if str_in c "return_data" then (answer, Continue)
  else if str_in c "exit" then ([], Terminate 0)
  else ([], Continue).
Proof. reflexivity. Qed.

(** C6.  Awaiting a command, a worker that receives [return_data] logs
    the number of keys of its table, sends the table to rank 0 with tag
    0 and awaits the next command with the same table; a worker that
    receives [exit] stops at once with status 0 and sends nothing, also
    when no [return_data] came before. *)
Theorem worker_serves_commands (incoming : list pyobj) :
  slave_command rank counts (PStr "return_data") = (answer, Continue) ∧
  slave_command rank counts (PStr "exit") = ([], Terminate 0) ∧
  slave_loop rank counts (PStr "return_data" :: incoming) =
    (ARecv MASTER_RANK rank (PStr "return_data")
       :: answer ++ (slave_loop rank counts incoming).1,
     (slave_loop rank counts incoming).2) ∧
  slave_loop rank counts (PStr "exit" :: incoming) =
    ([ARecv MASTER_RANK rank (PStr "exit")], Exited 0).
Proof.
  split_and!.
  - reflexivity.
  - reflexivity.
  - by apply slave_loop_continue.
  - by apply slave_loop_terminate.
Qed.

(** C9.  The dispatch is by containment.  For a received str [c]: when
    [c] is a substring of [return_data] (the empty str is one) the worker
    logs, sends its table to rank 0 with tag 0, does nothing else and
    keeps receiving; when [c] is not one but is a substring of [exit] it
    sends nothing and exits with status 0; when [c] is a substring of
    neither it does nothing and keeps receiving.  So it sends exactly when
    [c] is a substring of [return_data], and stops exactly when [c] is not
    one but is a substring of [exit]. *)
Theorem worker_dispatch_by_containment (c : string) (incoming : list pyobj) :
  (is_substring c "return_data" →
   slave_command rank counts (PStr c) = (answer, Continue) ∧
   slave_loop rank counts (PStr c :: incoming)
   = (ARecv MASTER_RANK rank (PStr c)
        :: answer ++ (slave_loop rank counts incoming).1,
      (slave_loop rank counts incoming).2)) ∧
  (¬ is_substring c "return_data" → is_substring c "exit" →
   slave_command rank counts (PStr c) = ([], Terminate 0) ∧
   slave_loop rank counts (PStr c :: incoming)
   = ([ARecv MASTER_RANK rank (PStr c)], Exited 0)) ∧
  (¬ is_substring c "return_data" → ¬ is_substring c "exit" →
   slave_command rank counts (PStr c) = ([], Continue) ∧
   slave_loop rank counts (PStr c :: incoming)
   = (ARecv MASTER_RANK rank (PStr c) :: (slave_loop rank counts incoming).1,
      (slave_loop rank counts incoming).2)) ∧
  ((∃ obj dest tag,
      ASend obj dest tag ∈ (slave_command rank counts (PStr c)).1)
   ↔ is_substring c "return_data") ∧
  ((∃ status, (slave_command rank counts (PStr c)).2 = Terminate status)
   ↔ ¬ is_substring c "return_data" ∧ is_substring c "exit").
Proof.
  rewrite <- !str_in_false, <- !str_in_spec.
  pose proof (slave_command_str c) as Hcmd.
  destruct (str_in c "return_data"); [|destruct (str_in c "exit")];
    rewrite Hcmd; cbn [fst snd]; split_and!.
  - intros _. split; [done|]. by apply slave_loop_continue.
  - intros H. discriminate H.
  - intros H. discriminate H.
  - split; [done|]. intros _.
    exists (PCounts counts), MASTER_RANK, MASTER_RANK.
    apply elem_of_cons. right. apply elem_of_cons. by left.
  - split; [intros [status H]; discriminate H|intros [H _]; discriminate H].
  - intros H. discriminate H.
  - intros _ _. split; [done|]. by apply slave_loop_terminate.
  - intros _ H. discriminate H.
  - split; [|intros H; discriminate H].
    intros (obj & dest & tag & H). by apply elem_of_nil in H.
  - split; [done|]. intros _. by exists 0.
  - intros H. discriminate H.
  - intros _ H. discriminate H.
  - intros _ _. split; [done|].
    by apply (slave_loop_continue (PStr c) [] incoming).
  - split; [|intros H; discriminate H].
    intros (obj & dest & tag & H). by apply elem_of_nil in H.
  - split; [intros [status H]; discriminate H|intros [_ H]; discriminate H].
Qed.

(** C10.  A received value that is not a str raises nothing and sends
    nothing: the worker goes back to the receive with its table
    unchanged. *)
Theorem worker_ignores_non_str (v : pyobj) (incoming : list pyobj) :
  is_str v = false →
  slave_command rank counts v = ([], Continue) ∧
  slave_loop rank counts (v :: incoming) =
    (ARecv MASTER_RANK rank v :: (slave_loop rank counts incoming).1,
     (slave_loop rank counts incoming).2).
Proof.
  intros Hv.
  assert (slave_command rank counts v = ([], Continue)) as H
    by (by destruct v).
  split; [done|]. by rewrite (slave_loop_continue _ _ _ H).
Qed.
End Worker.

Lemma worker_dispatch_by_containment_witness :
  is_substring "data" "return_data" ∧
  slave_loop 1 table_a [PStr "data"]
  = (ARecv MASTER_RANK 1 (PStr "data") :: answer 1 table_a, Blocked) ∧
  (¬ is_substring "xi" "return_data" ∧ is_substring "xi" "exit") ∧
  slave_loop 1 table_a [PStr "xi"; PStr "data"]
  = ([ARecv MASTER_RANK 1 (PStr "xi")], Exited 0) ∧
  (¬ is_substring "quit" "return_data" ∧ ¬ is_substring "quit" "exit") ∧
  slave_loop 1 table_a [PStr "quit"]
  = ([ARecv MASTER_RANK 1 (PStr "quit")], Blocked).
Proof.
  assert (is_substring "data" "return_data") as Hdata
    by (by apply str_in_spec).
  assert (¬ is_substring "xi" "return_data") as Hxi
    by (by apply str_in_false).
  assert (is_substring "xi" "exit") as Hxi' by (by apply str_in_spec).
  assert (¬ is_substring "quit" "return_data") as Hquit
    by (by apply str_in_false).
  assert (¬ is_substring "quit" "exit") as Hquit'
    by (by apply str_in_false).
  split; [exact Hdata|]. split.
  { destruct (worker_dispatch_by_containment 1 table_a "data" [])
      as (H & _). destruct (H Hdata) as [_ ->]. reflexivity. }
  split; [exact (conj Hxi Hxi')|]. split.
  { destruct (worker_dispatch_by_containment 1 table_a "xi" [PStr "data"])
      as (_ & H & _). destruct (H Hxi Hxi') as [_ ->]. reflexivity. }
  split; [exact (conj Hquit Hquit')|].
  destruct (worker_dispatch_by_containment 1 table_a "quit" [])
    as (_ & _ & H & _). destruct (H Hquit Hquit') as [_ ->]. reflexivity.
Defined.

Lemma worker_ignores_non_str_witness :
  is_str (PInt 7) = false ∧
  slave_loop 1 ∅ [PInt 7; PStr "exit"] =
    ([ARecv MASTER_RANK 1 (PInt 7); ARecv MASTER_RANK 1 (PStr "exit")],
     Exited 0).
Proof.
  split; [reflexivity|].
  destruct (worker_ignores_non_str 1 ∅ (PInt 7) [PStr "exit"] eq_refl)
    as [_ ->].
  reflexivity.
Defined.

(** ** The Local Counter *)

Lemma bind_ok {A B} (t : list action) (a : A) (f : A → M B) :
  (t, Ok a) ≫= f = (t ++ (f a).1, (f a).2).
Proof. unfold mbind, M_bind. by destruct (f a). Qed.

Lemma bind_ret {A B} (a : A) (f : A → M B) : mret a ≫= f = f a.
Proof. unfold mbind, M_bind, mret, M_ret. by destruct (f a). Qed.

Lemma bind_abort {A B} (t : list action) (b : abort) (f : A → M B) :
  @mbind M _ A B f (t, Abort b) = (t, Abort b).
Proof. reflexivity. Qed.

Lemma tweet_to_json_raises (tweet : pyobj) :
  tweet_to_json tweet =
  raise (if is_str tweet then AttributeError else TypeError).
Proof. by destruct tweet. Qed.

(** The exception that leaves the inner [try] statement, by the content
    of [tweet]. *)
Lemma decode_and_count_raises i stype squery tweet occurrences :
  decode_and_count i stype squery tweet occurrences =
  raise match tweet with
        | None => UnboundLocalError
        | Some t => if is_str t then AttributeError else TypeError
        end.
Proof. by destruct tweet as [[]|]. Qed.

Lemma process_row_raises rank processes stype squery i line tweet occurrences :
  ∃ e, process_row rank processes stype squery i line tweet occurrences
       = raise e.
Proof.
  unfold process_row, belongs.
  destruct (processes =? 0); [by eexists|].
  rewrite bind_ret.
  destruct (i mod processes =? rank).
  - unfold getitem.
    destruct (list_find _ line) as [[? [? v]]|]; [|by eexists].
    cbn. rewrite decode_and_count_raises. by eexists.
  - cbn. rewrite decode_and_count_raises. by eexists.
Qed.

(** A first row that belongs to another rank finds [tweet] unbound. *)
Lemma process_tweets_foreign_first rank processes line rows stype squery :
  processes ≠ 0 → 0 mod processes ≠ rank →
  process_tweets rank (Row line :: rows) processes stype squery
  = raise UnboundLocalError.
Proof.
  intros Hp Hr. unfold process_tweets; simpl. unfold process_row, belongs.
  apply Z.eqb_neq in Hp, Hr. rewrite Hp.
  rewrite bind_ret. by rewrite Hr.
Qed.

(** A first row of rank 0 whose payload is a str ends in [json.load]. *)
Lemma process_tweets_own_first processes line rows stype squery s :
  processes ≠ 0 → getitem (PDict line) "value" = mret (PStr s) →
  process_tweets 0 (Row line :: rows) processes stype squery
  = raise AttributeError.
Proof.
  intros Hp Hv. unfold process_tweets; simpl. unfold process_row, belongs.
  apply Z.eqb_neq in Hp. rewrite Hp.
  rewrite bind_ret, Z.mod_0_l by (by apply Z.eqb_neq).
  rewrite Z.eqb_refl, Hv. reflexivity.
Qed.

(** The counting pass returns on two kinds of input only, and then with
    the empty table. *)
Lemma process_tweets_cases rank input_file processes stype squery :
  match input_file with
  | [] => process_tweets rank input_file processes stype squery = mret ∅
  | BadRow :: _ =>
      process_tweets rank input_file processes stype squery
      = ([APrint [PStr "Could not read line in csv."]], Ok ∅)
  | Row _ :: _ =>
      ∃ e, process_tweets rank input_file processes stype squery = raise e
  end.
Proof.
  destruct input_file as [|[line|] rows]; [done| |done].
  unfold process_tweets; simpl.
  destruct (process_row_raises rank processes stype squery 0 line None ∅)
    as [e ->].
  by exists e.
Qed.

Lemma process_tweets_silent rank input_file processes stype squery :
  Forall (fun a => is_silent a = true)
         (process_tweets rank input_file processes stype squery).1.
Proof.
  pose proof (process_tweets_cases rank input_file processes stype squery) as H.
  destruct input_file as [|[line|] rows].
  - rewrite H. constructor.
  - destruct H as [e ->]. constructor.
  - rewrite H. by repeat constructor.
Qed.

(** C8.  For a str payload [tweet_to_json] raises AttributeError, which is
    not a ValueError: no record is ever returned for a str, and the
    exception passes the ValueError handler of [process_tweets] and ends
    the counting pass. *)
Theorem tweet_to_json_str_attribute_error (s : string) :
  tweet_to_json (PStr s) = raise AttributeError ∧
  is_ValueError AttributeError = false ∧
  (∀ i stype squery occurrences,
     decode_and_count i stype squery (Some (PStr s)) occurrences
     = raise AttributeError) ∧
  (∀ processes line rows stype squery,
     processes ≠ 0 → getitem (PDict line) "value" = mret (PStr s) →
     process_tweets 0 (Row line :: rows) processes stype squery
     = raise AttributeError).
Proof.
  split_and!; [done..|].
  intros. by eapply process_tweets_own_first.
Qed.

Lemma tweet_to_json_str_attribute_error_witness :
  tweet_to_json (PStr (tweet_json "@a")) = raise AttributeError ∧
  process_tweets 0 [record "@a"; record "@b"] 2 "mentions" ""
  = raise AttributeError.
Proof.
  destruct (tweet_to_json_str_attribute_error (tweet_json "@a"))
    as (H1 & _ & _ & H4).
  split; [exact H1|].
  apply H4; [lia | reflexivity].
Defined.

(** C1.  The process of rank 1 of 2 meets record 0, which belongs to rank
    0: it does not pass it over but enters the [try] statement with
    [tweet] unbound, and the counting pass ends in UnboundLocalError. *)
Theorem foreign_record_enters_try :
  process_tweets 1 [record "@a"] 2 "mentions" "" = raise UnboundLocalError.
Proof. reflexivity. Qed.

(** C4.  A payload that is not JSON is not passed over: the single process
    prints no diagnostic and does not go on to the next record; the
    counting pass ends in AttributeError. *)
Theorem malformed_record_is_fatal :
  process_tweets 0 [Row [("value", PStr "not json")]; record "@a"]
                 1 "mentions" ""
  = raise AttributeError.
Proof. reflexivity. Qed.

(** C7.  With the mode [topics] no branch of [process_tweet] binds
    [results]: counting a decoded record ends in UnboundLocalError, while
    the mode [topic] counts its hashtags. *)
Theorem topics_mode_selects_nothing :
  process_tweet ∅ "topics" "" (PDict [("text", PStr "#rocq")])
  = raise UnboundLocalError ∧
  process_tweet ∅ "topic" "" (PDict [("text", PStr "#rocq")])
  = mret {["#rocq" := 1]}.
Proof. split; vm_compute; reflexivity. Qed.

(** C2.  On the four records of scenario B with two processes no merged
    table comes about: the Coordinator's own counting pass ends in
    AttributeError before any message, the worker's in UnboundLocalError;
    the single-process run ends in AttributeError as well. *)
Theorem scenario_B_yields_no_table (mb mb' : list envelope) :
  master_tweet_processor (Communicator 0 2 mb) scenario_rows "mentions" ""
  = raise AttributeError ∧
  slave_tweet_processor (Communicator 1 2 mb') scenario_rows "mentions" ""
  = ([], Raised UnboundLocalError) ∧
  master_tweet_processor (Communicator 0 1 mb) scenario_rows "mentions" ""
  = raise AttributeError.
Proof. split_and!; reflexivity. Qed.

(** ** The Coordinator *)

Lemma for_each_send (obj : pyobj) (xs : list Z) :
  for_each xs (fun i => send obj (i + 1) (i + 1))
  = ((fun i => ASend obj (i + 1) (i + 1)) <$> xs, Ok tt).
Proof.
  induction xs as [|x xs IH]; [done|].
  simpl. rewrite IH. reflexivity.
Qed.

Lemma sends_to_ranks (obj : pyobj) (n : Z) :
  (fun i => ASend obj (i + 1) (i + 1)) <$> range n
  = (fun r => ASend obj r r) <$> seqZ 1 n.
Proof.
  unfold range.
  replace (seqZ 1 n) with (Z.add 1 <$> seqZ 0 n) by apply (fmap_add_seqZ 1 0 n).
  rewrite <- list_fmap_compose.
  apply list_fmap_ext. intros _ i _. simpl. by rewrite (Z.add_comm 1 i).
Qed.

(** Taking a message out leaves the first message of any other sender
    where it is. *)
Lemma first_message_other source source' tag obj (mb mb' : list envelope) :
  take_message source tag mb = Some (obj, mb') → source' ≠ source →
  first_message source' tag mb' = first_message source' tag mb.
Proof.
  unfold first_message. revert mb'.
  induction mb as [|e mb IH]; intros mb' Htake Hne; [done|].
  simpl in Htake.
  destruct ((e_source e =? source) && (e_tag e =? tag)) eqn:Hhit.
  - injection Htake as _ <-. simpl.
    apply andb_true_iff in Hhit as [Hs _]. apply Z.eqb_eq in Hs.
    replace (e_source e =? source') with false
      by (symmetry; apply Z.eqb_neq; congruence).
    simpl. by destruct (take_message source' tag mb) as [[]|].
  - destruct (take_message source tag mb) as [[o mb0]|] eqn:Hrest; [|done].
    injection Htake as -> <-. simpl.
    destruct ((e_source e =? source') && (e_tag e =? tag)); [done|].
    specialize (IH mb0 eq_refl Hne).
    destruct (take_message source' tag mb0) as [[]|],
             (take_message source' tag mb) as [[]|]; simplify_eq/=; done.
Qed.

(** The receive loop takes the tables in the order of the ranks, wherever
    they stand in the mailbox. *)
Lemma recv_counts_in_rank_order (ts : list CountTable) :
  ∀ (m : Z) (mb : list envelope) (counts : list pyobj),
    (∀ i t, ts !! i = Some t →
       first_message (Z.of_nat i + m + 1) MASTER_RANK mb = Some (PCounts t)) →
    recv_counts mb counts (seqZ m (Z.of_nat (List.length ts)))
    = (imap (fun i t => ARecv (Z.of_nat i + m + 1) MASTER_RANK (PCounts t)) ts,
       Ok (counts ++ (PCounts <$> ts))).
Proof.
  induction ts as [|t ts IH]; intros m mb counts Hmb.
  - simpl. by rewrite app_nil_r.
  - rewrite length_cons, Nat2Z.inj_succ, seqZ_cons by lia.
    replace (Z.pred (Z.succ (Z.of_nat (List.length ts))))
      with (Z.of_nat (List.length ts)) by lia.
    cbn [recv_counts]. unfold recv.
    pose proof (Hmb 0%nat t eq_refl) as H0. unfold first_message in H0.
    replace (Z.of_nat 0 + m + 1) with (m + 1) in H0 by lia.
    destruct (take_message (m + 1) MASTER_RANK mb) as [[o mb']|] eqn:Htake;
      [|done].
    injection H0 as ->.
    unfold emit. repeat (rewrite bind_ok; cbn [fst snd mret M_ret app]).
    rewrite (IH (Z.succ m) mb' (counts ++ [PCounts t])).
    + cbn. f_equal.
      * f_equal. apply imap_ext. intros i x _. simpl. f_equal. lia.
      * by rewrite <- app_assoc.
    + intros i t' Hi.
      rewrite (first_message_other (m + 1) _ _ _ mb mb' Htake) by lia.
      replace (Z.of_nat i + Z.succ m + 1) with (Z.of_nat (S i) + m + 1) by lia.
      by apply Hmb.
Qed.

Lemma merge_all_counts (ts : list CountTable) :
  ∀ occurrences,
    merge_all occurrences (PCounts <$> ts)
    = (merges ts, Ok (foldl merge occurrences ts)).
Proof.
  induction ts as [|t ts IH]; intros occurrences; [done|].
  simpl. rewrite IH. reflexivity.
Qed.

Lemma marshall_tweet_trace (comm : communicator) (ts : list CountTable) :
  Z.of_nat (List.length ts) = Get_size comm - 1 →
  (∀ i t, ts !! i = Some t →
     first_message (Z.of_nat i + 1) MASTER_RANK (mailbox comm)
     = Some (PCounts t)) →
  marshall_tweet comm
  = (requests (Get_size comm) ++ receipts ts, Ok (PCounts <$> ts)).
Proof.
  intros Hlen Hmb. unfold marshall_tweet, range.
  rewrite for_each_send, bind_ok, <- Hlen.
  rewrite (recv_counts_in_rank_order ts 0 (mailbox comm) []).
  - cbn [fst snd]. unfold requests, receipts. rewrite <- Hlen.
    f_equal. f_equal; [apply sends_to_ranks|].
    apply imap_ext. intros i x _. simpl. f_equal. lia.
  - intros i t Hi. rewrite Z.add_0_r. by apply Hmb.
Qed.

(** C5, as the code has it.  With one process, or fewer, the Coordinator
    sends and receives nothing.  In general, when its own counting pass
    has returned and the mailbox holds a table of counts from each rank
    1..N-1, in whatever order, the Coordinator first sends [return_data]
    to every rank 1..N-1, then receives the tables in the order of the
    ranks, then, after the last receive, merges them in that order, then
    sends [exit] to every rank 1..N-1; it ends with the merged table. *)
Theorem coordinator_protocol_trace (comm : communicator)
    (input_file : list csv_item) (stype squery : string) :
  (Get_size comm ≤ 1 →
   Forall (fun a => is_silent a = true)
          (master_tweet_processor comm input_file stype squery).1) ∧
  (∀ t0 occurrences (ts : list CountTable),
     process_tweets (Get_rank comm) input_file (Get_size comm) stype squery
     = (t0, Ok occurrences) →
     Z.of_nat (List.length ts) = Get_size comm - 1 →
     (∀ i t, ts !! i = Some t →
        first_message (Z.of_nat i + 1) MASTER_RANK (mailbox comm)
        = Some (PCounts t)) →
     master_tweet_processor comm input_file stype squery
     = (t0 ++ requests (Get_size comm) ++ receipts ts ++ merges ts
           ++ releases (Get_size comm),
        Ok (foldl merge occurrences ts))).
Proof.
  split.
  - intros Hsize. unfold master_tweet_processor.
    pose proof (process_tweets_silent (Get_rank comm) input_file
                  (Get_size comm) stype squery) as Hsilent.
    destruct (process_tweets _ _ _ _ _) as [t [occ|b]]; [|done].
    rewrite bind_ok.
    replace (1 <? Get_size comm) with false by (symmetry; apply Z.ltb_ge; lia).
    simpl. by rewrite app_nil_r.
  - intros t0 occurrences ts Hown Hlen Hmb.
    unfold master_tweet_processor. rewrite Hown, bind_ok.
    destruct (1 <? Get_size comm) eqn:Hsize.
    + rewrite (marshall_tweet_trace comm ts Hlen Hmb).
      rewrite bind_ok, merge_all_counts, bind_ok, for_each_send, bind_ok.
      rewrite sends_to_ranks. cbn [fst snd mret M_ret].
      by rewrite app_nil_r, <- !app_assoc.
    + apply Z.ltb_ge in Hsize.
      destruct ts as [|t ts]; [|simpl in Hlen; lia].
      unfold requests, releases.
      replace (Get_size comm - 1) with (Z.of_nat 0) by (simpl in Hlen; lia).
      reflexivity.
Qed.

Lemma coordinator_protocol_trace_witness :
  Forall (fun a => is_silent a = true)
         (master_tweet_processor (Communicator 0 1 []) scenario_rows
            "mentions" "").1 ∧
  master_tweet_processor rank2_first [] "mentions" ""
  = ([] ++ requests 3 ++ receipts [table_a; table_b]
        ++ merges [table_a; table_b] ++ releases 3,
     Ok (foldl merge ∅ [table_a; table_b])).
Proof.
  split.
  - apply (coordinator_protocol_trace (Communicator 0 1 []) scenario_rows
             "mentions" "").
    simpl. lia.
  - apply (coordinator_protocol_trace rank2_first [] "mentions" "").
    + reflexivity.
    + reflexivity.
    + intros [|[|i]] t Hi; simplify_eq/=; reflexivity.
Defined.

(** C5, as the specification words it, fails on the code: with three
    processes the tables are not merged as they arrive; both receives come
    before the first merge. *)
Lemma coordinator_merges_after_last_receive :
  (master_tweet_processor rank2_first [] "mentions" "").1
  ≠ requests 3 ++ receipts_merged_on_arrival [table_a; table_b] ++ releases 3.
Proof. intros H. vm_compute in H. discriminate H. Qed.

(** ** The partition test *)

(** Every index belongs to exactly one rank below the number of
    processes. *)
Lemma belongs_exactly_one_rank (i processes : Z) :
  0 < processes →
  ∃ r, 0 ≤ r < processes ∧
       ∀ rank, belongs i processes rank = mret (bool_decide (r = rank)).
Proof.
  intros Hp. exists (i mod processes). split.
  - by apply Z.mod_pos_bound.
  - intros rank. unfold belongs.
    replace (processes =? 0) with false by (symmetry; apply Z.eqb_neq; lia).
    f_equal. case_bool_decide as H.
    + by apply Z.eqb_eq.
    + by apply Z.eqb_neq.
Qed.

(** ** Counting the occurrences of one decoded record *)

Lemma merged_count_None_r (x : option Z) : merged_count x None = x.
Proof. destruct x; simpl; f_equal; lia. Qed.

Lemma lookup_foldl_add_count (l : list string) :
  ∀ (counts : CountTable) (k : string),
    foldl (fun counts occurrence => add_count counts occurrence 1) counts l
    !! k
    = merged_count (counts !! k) (seen (count_occ string_dec l k)).
Proof.
  induction l as [|x l IH]; intros counts k; simpl.
  - by rewrite merged_count_None_r.
  - rewrite IH, lookup_add_count.
    destruct (string_dec x k) as [->|Hne].
    + rewrite decide_True by done.
      destruct (count_occ string_dec l k), (counts !! k);
        simpl; f_equal; lia.
    + by rewrite decide_False.
Qed.

(** The table of a list of occurrences maps every string to the number
    of times it is in the list, and has no key for a string that is not. *)
Lemma lookup_tally (l : list string) (k : string) :
  tally l !! k = seen (count_occ string_dec l k).
Proof.
  unfold tally. rewrite lookup_foldl_add_count, lookup_empty.
  by destruct (count_occ string_dec l k).
Qed.

(** ** The scan of a text, place by place *)

Lemma is_word_plain (c : ascii) :
  is_word c = true → is_meta c = false ∧ is_ascii_char c = true.
Proof.
  destruct c as [[] [] [] [] [] [] [] []]; intros H; cbv in H;
    try discriminate H; split; reflexivity.
Qed.

Lemma word_run_take_word (s : string) :
  word_run (String.length (take_word s)) s = true.
Proof.
  induction s as [|d s IH]; simpl; [done|].
  destruct (is_word d) eqn:Hd; simpl; [|done]. by rewrite Hd.
Qed.

Lemma tokens_cons_other (c d : ascii) (s : string) :
  c ≠ d → tokens c (String d s) = tokens c s.
Proof.
  intros Hne. cbn [tokens].
  destruct (take_word s); [done|].
  by destruct (Ascii.eqb_spec c d).
Qed.

(** For a sign that is not a word character, the scan for the sign
    followed by [\w+] reports the tokens of the text: a match covers its
    word characters, and none of them is the sign. *)
Lemma findall_tokens (c : ascii) :
  is_word c = false →
  ∀ s prev skip,
    word_run skip s = true →
    findall_from [ALit c; AWordPlus] prev skip s = tokens c s.
Proof.
  intros Hc. induction s as [|d s IH]; intros prev [|skip] Hrun; try done.
  - cbn [findall_from match_here].
    destruct (Ascii.eqb_spec c d) as [<-|Hne].
    + cbn [tokens]. rewrite Ascii.eqb_refl.
      pose proof (word_run_take_word s) as Hword.
      destruct (take_word s) as [|e run]; cbn [fmap option_fmap option_map].
      * by apply IH.
      * f_equal. apply IH.
        by replace (String.length (String c (String e run)) - 1)%nat
          with (String.length (String e run)) by (simpl; lia).
    + rewrite tokens_cons_other by done. by apply IH.
  - cbn [findall_from]. cbn [word_run] in Hrun.
    apply andb_true_iff in Hrun as [Hd Hrun].
    rewrite tokens_cons_other by congruence. by apply IH.
Qed.

Lemma count_regex_sign (c : ascii) (pattern text : string) :
  re_compile pattern = Some [ALit c; AWordPlus] →
  is_word c = false → is_ascii text = true →
  count_regex (decoded text) pattern = mret (tally (tokens c text)).
Proof.
  intros Hcomp Hc Ha. unfold count_regex, decoded.
  change (getitem (PDict [("text", PStr text)]) "text")
    with (@mret M _ _ (PStr text)).
  rewrite bind_ret. unfold re_findall. rewrite Hcomp, Ha, bind_ret.
  by rewrite findall_tokens.
Qed.

(** On a decoded record with an ASCII text the mode [mentions] tallies
    the tokens of the sign [@] and the mode [topic] those of the sign
    [#], added to [counts]. *)
Lemma process_tweet_mentions counts squery text :
  is_ascii text = true →
  process_tweet counts "mentions" squery (decoded text)
  = mret (merge counts (tally (tokens "@" text))).
Proof.
  intros Ha. unfold process_tweet, user_mentions.
  change (str_in "mentions" "mentions") with true. cbv iota.
  by rewrite (count_regex_sign "@").
Qed.

Lemma process_tweet_topic counts squery text :
  is_ascii text = true →
  process_tweet counts "topic" squery (decoded text)
  = mret (merge counts (tally (tokens "#" text))).
Proof.
  intros Ha. unfold process_tweet, trending_topics.
  change (str_in "topic" "mentions") with false.
  change (str_in "topic" "topic") with true. cbv iota.
  by rewrite (count_regex_sign "#").
Qed.

(** Scenario A, on records that are already decoded. *)
Example scenario_A_on_decoded_records :
  ∃ t1 t2 t3 t4,
    process_tweet ∅ "mentions" "" (decoded "@a") = mret t1 ∧
    process_tweet t1 "mentions" "" (decoded "@a") = mret t2 ∧
    process_tweet t2 "mentions" "" (decoded "@b") = mret t3 ∧
    process_tweet t3 "mentions" "" (decoded "@c") = mret t4 ∧
    t4 = {["@a" := 2; "@b" := 1; "@c" := 1]}.
Proof.
  eexists _, _, _, _. split_and!; [reflexivity..|].
  vm_compute. reflexivity.
Qed.

(** ** The mode [string_search] on a query of word characters *)

Lemma re_compile_word_char (c : ascii) (rest : string) :
  is_word c = true →
  re_compile (String c rest) = cons (ALit c) <$> re_compile rest.
Proof.
  intros H.
  destruct c as [[] [] [] [] [] [] [] []]; cbv in H; try discriminate H;
    reflexivity.
Qed.

Lemma re_compile_words (q : string) :
  forallb is_word (list_ascii_of_string q) = true →
  re_compile (q +:+ "\b")
  = Some ((ALit <$> list_ascii_of_string q) ++ [ABoundary]).
Proof.
  induction q as [|c q IH]; intros Hq; [done|].
  simpl in Hq. apply andb_true_iff in Hq as [Hc Hq].
  change (String c q +:+ "\b") with (String c (q +:+ "\b")).
  by rewrite (re_compile_word_char _ _ Hc), (IH Hq).
Qed.

Lemma re_compile_word_bounded (q : string) :
  forallb is_word (list_ascii_of_string q) = true →
  re_compile ("\b" +:+ q +:+ "\b")
  = Some (ABoundary :: (ALit <$> list_ascii_of_string q) ++ [ABoundary]).
Proof.
  intros Hq.
  change ("\b" +:+ q +:+ "\b") with (String "\" (String "b" (q +:+ "\b"))).
  cbn [re_compile]. by rewrite (re_compile_words q Hq).
Qed.

(** The characters of [q] followed by [\b], after a word character or
    at least one character long: [q] at the head of the text with no word
    character behind it. *)
Lemma match_here_words (q : string) :
  forallb is_word (list_ascii_of_string q) = true →
  ∀ prev s,
    from_option is_word false prev = true ∨ q ≠ EmptyString →
    match_here ((ALit <$> list_ascii_of_string q) ++ [ABoundary]) prev s
    = match strip_prefix q s with
      | Some rest =>
          if match rest with String d _ => is_word d | EmptyString => false end
          then None else Some q
      | None => None
      end.
Proof.
  induction q as [|c q IH]; intros Hq prev s Hprev.
  - destruct Hprev as [Hprev|?]; [|done].
    simpl. unfold at_boundary. rewrite Hprev.
    by destruct s as [|d s]; [|destruct (is_word d)].
  - simpl in Hq. apply andb_true_iff in Hq as [Hc Hq].
    destruct s as [|d s]; [done|]. cbn [match_here strip_prefix fmap list_fmap list_ascii_of_string app].
    destruct (Ascii.eqb_spec c d) as [<-|]; [|done].
    rewrite (IH Hq (Some c) s) by (by left).
    destruct (strip_prefix q s) as [[|e rest]|]; [done| |done].
    by destruct (is_word e).
Qed.

Lemma match_here_word_query (q : string) :
  is_word_query q = true →
  ∀ prev s,
    match_here (ABoundary :: (ALit <$> list_ascii_of_string q) ++ [ABoundary])
               prev s
    = if stands_as_word q prev s then Some q else None.
Proof.
  intros Hq prev s. destruct q as [|c q]; [done|].
  unfold is_word_query in Hq.
  cbn [match_here]. rewrite (match_here_words _ Hq) by (by right).
  unfold stands_as_word.
  destruct (strip_prefix (String c q) s) as [rest|] eqn:Hs.
  - destruct s as [|d s]; [done|]. cbn [strip_prefix] in Hs.
    destruct (Ascii.eqb_spec c d) as [<-|]; [|done].
    simpl in Hq. apply andb_true_iff in Hq as [Hc _].
    unfold at_boundary. rewrite Hc.
    destruct (from_option is_word false prev); [done|]. simpl.
    by destruct rest as [|e rest]; [|destruct (is_word e)].
  - by destruct (at_boundary prev s).
Qed.

Lemma strip_prefix_word_run (q : string) :
  forallb is_word (list_ascii_of_string q) = true →
  ∀ s rest, strip_prefix q s = Some rest →
            word_run (String.length q) s = true.
Proof.
  induction q as [|c q IH]; intros Hq s rest Hs; [done|].
  simpl in Hq. apply andb_true_iff in Hq as [Hc Hq].
  destruct s as [|d s]; [done|]. cbn [strip_prefix] in Hs.
  destruct (Ascii.eqb_spec c d) as [<-|]; [|done].
  cbn [String.length word_run]. rewrite Hc. by apply (IH Hq s rest).
Qed.

(** The scan for a query of word characters between word boundaries
    reports the query once for every place where it stands as a whole
    word: such places cannot overlap. *)
Lemma findall_whole_words (q : string) :
  is_word_query q = true →
  ∀ s prev skip,
    word_run skip s = true →
    skip = 0%nat ∨ from_option is_word false prev = true →
    findall_from
      (ABoundary :: (ALit <$> list_ascii_of_string q) ++ [ABoundary])
      prev skip s
    = replicate (whole_words q prev s) q.
Proof.
  intros Hq.
  assert (∃ c q', q = String c q' ∧ is_word c = true ∧
                  forallb is_word (list_ascii_of_string q') = true)
    as (c & q' & Hcq & Hc & Hq').
  { destruct q as [|c q']; [done|]. unfold is_word_query in Hq. simpl in Hq.
    apply andb_true_iff in Hq as [? ?]. eauto. }
  induction s as [|d s IH]; intros prev [|skip] Hrun Hprev.
  - cbn [findall_from whole_words]. rewrite (match_here_word_query q Hq).
    by destruct (stands_as_word q prev EmptyString).
  - done.
  - cbn [findall_from whole_words]. rewrite (match_here_word_query q Hq).
    destruct (stands_as_word q prev (String d s)) eqn:Hstands.
    + cbn [Nat.add replicate]. f_equal.
      unfold stands_as_word in Hstands.
      destruct (strip_prefix q (String d s)) as [rest|] eqn:Hs; [|done].
      subst q. cbn [strip_prefix] in Hs.
      destruct (Ascii.eqb_spec c d) as [<-|]; [|done].
      apply IH; [|by right].
      replace (String.length (String c q') - 1)%nat with (String.length q')
        by (simpl; lia).
      by apply (strip_prefix_word_run q' Hq' s rest).
    + cbn [Nat.add]. apply IH; [done|by left].
  - cbn [findall_from whole_words]. cbn [word_run] in Hrun.
    apply andb_true_iff in Hrun as [Hd Hrun].
    destruct Hprev as [?|Hprev]; [done|].
    unfold stands_as_word at 1. rewrite Hprev.
    destruct (strip_prefix q (String d s)); cbn [negb andb Nat.add];
      apply IH; auto.
Qed.

(** A list that repeats one string is tallied under that string alone. *)
Lemma tally_repeated (q : string) (l : list string) :
  Forall (eq q) l →
  tally l = match l with
            | [] => ∅
            | _ :: _ => {[q := Z.of_nat (List.length l)]}
            end.
Proof.
  intros Hl. apply map_eq; intros k. rewrite lookup_tally.
  assert (count_occ string_dec l k = if decide (q = k) then List.length l else 0%nat)
    as ->.
  { induction Hl as [|x l <- _ IH]; simpl; [by case_decide|].
    rewrite IH. destruct (string_dec q k); case_decide; done. }
  destruct l as [|x l]; simpl.
  - by case_decide.
  - rewrite lookup_singleton. case_decide; done.
Qed.

Lemma tally_replicate (q : string) (n : nat) :
  tally (replicate n q)
  = match n with
    | O => ∅
    | S _ => {[q := Z.of_nat n]}
    end.
Proof.
  rewrite (tally_repeated q) by (apply Forall_replicate_eq).
  destruct n; [done|]. by rewrite length_replicate.
Qed.



(** Scenario C, on records that are already decoded: three records with
    a match and two without, one match each. *)
Example scenario_C_on_decoded_records :
  ∃ t1 t2 t3 t4 t5,
    process_tweet ∅ "string_search" "hello" (decoded "hello world") = mret t1 ∧
    process_tweet t1 "string_search" "hello" (decoded "othello") = mret t2 ∧
    process_tweet t2 "string_search" "hello" (decoded "say hello!") = mret t3 ∧
    process_tweet t3 "string_search" "hello" (decoded "hello_world") = mret t4 ∧
    process_tweet t4 "string_search" "hello" (decoded "oh, hello") = mret t5 ∧
    t5 = {["hello" := 3]}.
Proof.
  eexists _, _, _, _, _. split_and!; [reflexivity..|].
  vm_compute. reflexivity.
Qed.

(** ** The Worker Agent as a process *)

(** A worker whose counting pass returns awaits commands with the table
    of that pass; one whose pass stops never awaits any. *)
Lemma slave_tweet_processor_awaits comm input_file stype squery t counts :
  process_tweets (Get_rank comm) input_file (Get_size comm) stype squery
  = (t, Ok counts) →
  slave_tweet_processor comm input_file stype squery
  = (t ++ (slave_loop (Get_rank comm) counts
             (channel MASTER_RANK (Get_rank comm) (mailbox comm))).1,
     (slave_loop (Get_rank comm) counts
        (channel MASTER_RANK (Get_rank comm) (mailbox comm))).2).
Proof.
  intros H. unfold slave_tweet_processor. rewrite H.
  by destruct (slave_loop _ _ _).
Qed.

(** Scenario D: on an empty input the worker of rank 1 is told to exit
    first; the request that follows is never received. *)
Example scenario_D_exit_first :
  slave_tweet_processor
    (Communicator 1 2 [Envelope MASTER_RANK 1 (PStr "exit");
                       Envelope MASTER_RANK 1 (PStr "return_data")])
    [] "mentions" ""
  = ([ARecv MASTER_RANK 1 (PStr "exit")], Exited 0).
Proof. reflexivity. Qed.

(** * Further properties *)

(** ** Totals and order of merging *)

Lemma total_insert_fresh (t : CountTable) (k : string) (v : Z) :
  t !! k = None → total (<[k := v]> t) = v + total t.
Proof.
  intros Hk. unfold total. rewrite map_fold_insert_L; [done| |done].
  intros. lia.
Qed.

Lemma total_add_count (t : CountTable) (k : string) (v : Z) :
  total (add_count t k v) = total t + v.
Proof.
  unfold add_count. destruct (t !! k) as [u|] eqn:Hk; simpl.
  - rewrite <- insert_delete_eq.
    rewrite total_insert_fresh by apply lookup_delete_eq.
    unfold total at 2.
    rewrite (map_fold_delete_L _ _ k u t); [|intros; lia|done].
    fold (total (delete k t)). lia.
  - rewrite total_insert_fresh by done. lia.
Qed.

Lemma total_merge (a b : CountTable) : total (merge a b) = total a + total b.
Proof.
  unfold merge.
  apply (map_fold_weak_ind (fun r m => total r = total a + total m)).
  - unfold total at 3. rewrite map_fold_empty. lia.
  - intros i x m r Hi IH.
    rewrite total_add_count, IH, total_insert_fresh by done. lia.
Qed.

Lemma total_foldl_add_count (l : list string) :
  ∀ counts,
    total (foldl (fun counts occurrence => add_count counts occurrence 1)
                 counts l)
    = total counts + Z.of_nat (List.length l).
Proof.
  induction l as [|x l IH]; intros counts; simpl; [lia|].
  rewrite IH, total_add_count. lia.
Qed.

Lemma total_tally (l : list string) :
  total (tally l) = Z.of_nat (List.length l).
Proof. unfold tally. by rewrite total_foldl_add_count. Qed.

(** Merging conserves the counts: the total of the merged table is the
    sum of the totals of the two tables. *)
Theorem merge_conserves_total (a b : CountTable) :
  total (merge a b) = total a + total b.
Proof. apply total_merge. Qed.

Lemma merge_swap (a b c : CountTable) :
  merge (merge a b) c = merge (merge a c) b.
Proof. by rewrite !merge_assoc, (merge_comm b c). Qed.

Lemma foldl_merge_permutation (ts ts' : list CountTable) :
  ts ≡ₚ ts' → ∀ occurrences,
    foldl merge occurrences ts = foldl merge occurrences ts'.
Proof.
  induction 1 as [|t ts ts' _ IH|t1 t2 ts|ts1 ts2 ts3 _ IH1 _ IH2];
    intros occurrences; simpl.
  - done.
  - apply IH.
  - by rewrite merge_swap.
  - by rewrite IH1, IH2.
Qed.

(** The table the Coordinator is left with after the loop over the
    received tables does not depend on the order in which they stand in
    [counts]. *)
Theorem merge_all_any_order (occurrences : CountTable)
    (ts ts' : list CountTable) :
  ts ≡ₚ ts' →
  (merge_all occurrences (PCounts <$> ts)).2
  = (merge_all occurrences (PCounts <$> ts')).2.
Proof.
  intros Hp. rewrite !merge_all_counts. simpl.
  by rewrite (foldl_merge_permutation ts ts' Hp).
Qed.

Lemma merge_all_any_order_witness :
  [table_a; table_b] ≡ₚ [table_b; table_a] ∧
  (merge_all ∅ (PCounts <$> [table_a; table_b])).2
  = (merge_all ∅ (PCounts <$> [table_b; table_a])).2.
Proof.
  split; [apply perm_swap|].
  apply (merge_all_any_order ∅ [table_a; table_b] [table_b; table_a]).
  apply perm_swap.
Defined.

(** ** What counting one record does to the table *)

(** The two loops that count one record, the tally of the occurrences
    (lines 21-25) and its merge into the table (lines 143-146), only add:
    whatever list of strings the search has returned, every key of the
    table is still there with a count that is not smaller, every
    occurrence is a key, and a table of positive counts stays one. *)
Theorem counting_loops_only_add (counts : CountTable)
    (occurrences : list string) :
  (∀ k v, counts !! k = Some v →
     ∃ v', merge counts (tally occurrences) !! k = Some v' ∧ v ≤ v') ∧
  Forall (fun k => is_Some (merge counts (tally occurrences) !! k))
         occurrences ∧
  (all_positive counts → all_positive (merge counts (tally occurrences))).
Proof.
  split_and!.
  - intros k v Hk. rewrite lookup_merge, Hk, lookup_tally.
    destruct (count_occ string_dec occurrences k); simpl;
      eexists; split; eauto; lia.
  - apply Forall_forall. intros k Hk. rewrite lookup_merge, lookup_tally.
    apply list_elem_of_In, (count_occ_In string_dec) in Hk.
    destruct (count_occ string_dec occurrences k); [lia|].
    by destruct (counts !! k).
  - intros Hpos k v. rewrite lookup_merge, lookup_tally.
    pose proof (Hpos k) as Hk.
    destruct (counts !! k) as [u|], (count_occ string_dec occurrences k);
      simpl; intros [= <-]; try specialize (Hk u eq_refl); simpl in *; lia.
Qed.

Lemma counting_loops_only_add_witness :
  table_a !! "@a" = Some 1 ∧ all_positive table_a ∧
  (∃ v', merge table_a (tally ["@a"; "@b"; "@a"]) !! "@a" = Some v' ∧ 1 ≤ v') ∧
  all_positive (merge table_a (tally ["@a"; "@b"; "@a"])).
Proof.
  assert (all_positive table_a) as Hpos.
  { intros k v Hk. unfold table_a in Hk.
    apply lookup_singleton_Some in Hk as [_ <-]. lia. }
  destruct (counting_loops_only_add table_a ["@a"; "@b"; "@a"])
    as (Hkeep & _ & Hstay).
  split; [reflexivity|]. split; [exact Hpos|]. split.
  - apply Hkeep. reflexivity.
  - apply Hstay. exact Hpos.
Defined.



(** ** The keys that the counting functions produce *)

Lemma take_word_prefix (s : string) : ∃ rest, s = take_word s +:+ rest.
Proof.
  induction s as [|c s [rest IH]]; simpl; [by exists EmptyString|].
  destruct (is_word c); [|by eexists].
  exists rest. change (String c s = String c (take_word s +:+ rest)).
  by f_equal.
Qed.

Lemma take_word_words (s : string) :
  forallb is_word (list_ascii_of_string (take_word s)) = true.
Proof.
  induction s as [|c s IH]; simpl; [done|].
  destruct (is_word c) eqn:Hc; simpl; [|done]. by rewrite Hc.
Qed.

Lemma is_substring_prefix (m rest : string) : is_substring m (m +:+ rest).
Proof. by exists EmptyString, rest. Qed.

Lemma is_substring_cons (m s : string) (c : ascii) :
  is_substring m s → is_substring m (String c s).
Proof. intros (pre & post & ->). by exists (String c pre), post. Qed.

Lemma tokens_are_tokens (c : ascii) (text : string) :
  Forall (is_token c) (tokens c text).
Proof.
  induction text as [|d s IH]; cbn [tokens]; [constructor|].
  pose proof (take_word_words s) as Hw.
  destruct (take_word s) as [|e run]; [done|].
  destruct (Ascii.eqb_spec c d) as [<-|]; [|done].
  constructor; [|done]. by exists (String e run).
Qed.

Lemma tokens_occur (c : ascii) (text : string) :
  Forall (fun m => is_substring m text) (tokens c text).
Proof.
  induction text as [|d s IH]; cbn [tokens]; [constructor|].
  assert (Forall (fun m => is_substring m (String d s)) (tokens c s)) as Htail.
  { eapply Forall_impl; [exact IH|]. intros m. apply is_substring_cons. }
  pose proof (take_word_prefix s) as [rest Hrest].
  destruct (take_word s) as [|e run]; [done|].
  destruct (Ascii.eqb c d); [|done].
  constructor; [|done]. rewrite Hrest.
  apply (is_substring_prefix (String d (String e run)) rest).
Qed.



(** A decoded record without a [text] field raises KeyError in every
    mode that selects a counting function, whatever the query. *)
Theorem process_tweet_without_text counts stype squery items :
  selects_counting stype = true →
  item "text" items = None →
  process_tweet counts stype squery (PDict items) = raise KeyError.
Proof.
  unfold selects_counting, item, process_tweet, user_mentions,
    trending_topics, count_regex, getitem.
  intros Hmode Hitem.
  destruct (list_find _ items); [done|].
  destruct (str_in stype "mentions"); [done|].
  destruct (str_in stype "topic"); [done|].
  destruct (str_in stype "string_search"); done.
Qed.

Lemma process_tweet_without_text_witness :
  selects_counting "string_search" = true ∧
  process_tweet ∅ "string_search" "a|b" (PDict [("id", PInt 1)])
  = raise KeyError.
Proof.
  split; [reflexivity|].
  by apply (process_tweet_without_text ∅ "string_search" "a|b" [("id", PInt 1)]).
Defined.

(** ** The counting pass as a whole *)

(** Whatever follows it, a first row ends the counting pass with an
    exception that depends on the rank and on the [value] field alone:
    UnboundLocalError on every rank but 0; on rank 0 KeyError when the
    row has no such field, AttributeError when the field is a str and
    TypeError when it is anything else. *)
Theorem process_tweets_first_row rank processes line rows stype squery :
  processes ≠ 0 →
  process_tweets rank (Row line :: rows) processes stype squery
  = raise (first_row_error rank line).
Proof.
  intros Hp. unfold process_tweets, first_row_error, item; simpl.
  unfold process_row, belongs.
  replace (processes =? 0) with false by (symmetry; by apply Z.eqb_neq).
  rewrite bind_ret, Z.mod_0_l, (Z.eqb_sym 0 rank) by done.
  destruct (rank =? 0); [|done].
  unfold getitem.
  destruct (list_find _ line) as [[i [k v]]|]; [|done].
  by destruct v.
Qed.

Lemma process_tweets_first_row_witness :
  (3 : Z) ≠ 0 ∧
  process_tweets 0 [Row [("id", PStr "7")]; record "@a"] 3 "mentions" ""
  = raise KeyError ∧
  process_tweets 0 [Row [("value", PNone)]] 3 "mentions" ""
  = raise TypeError.
Proof.
  split; [lia|]. split.
  - apply (process_tweets_first_row 0 3 [("id", PStr "7")] [record "@a"]). lia.
  - apply (process_tweets_first_row 0 3 [("value", PNone)] []). lia.
Defined.

(** The counting pass returns on two kinds of input only: the empty one,
    silently, and one whose first line cannot be read, after the notice;
    the table it returns is empty in both. *)
Theorem process_tweets_returns_empty rank input_file processes stype squery
    tr (occurrences : CountTable) :
  process_tweets rank input_file processes stype squery = (tr, Ok occurrences) →
  occurrences = ∅ ∧
  (input_file = [] ∧ tr = [] ∨
   ∃ rows, input_file = BadRow :: rows ∧
           tr = [APrint [PStr "Could not read line in csv."]]).
Proof.
  pose proof (process_tweets_cases rank input_file processes stype squery) as H.
  destruct input_file as [|[line|] rows].
  - rewrite H. intros [= <- <-]. eauto.
  - destruct H as [e ->]. discriminate.
  - rewrite H. intros [= <- <-]. eauto.
Qed.

Lemma process_tweets_returns_empty_witness :
  process_tweets 1 [BadRow; record "@a"] 2 "mentions" ""
  = ([APrint [PStr "Could not read line in csv."]], Ok ∅) ∧
  ((∅ : CountTable) = ∅ ∧
   ([BadRow; record "@a"] = [] ∧
    [APrint [PStr "Could not read line in csv."]] = [] ∨
    ∃ rows, [BadRow; record "@a"] = BadRow :: rows ∧
            [APrint [PStr "Could not read line in csv."]]
            = [APrint [PStr "Could not read line in csv."]])).
Proof.
  split; [reflexivity|].
  apply (process_tweets_returns_empty 1 [BadRow; record "@a"] 2 "mentions" "").
  reflexivity.
Defined.

(** No counting pass ever prints the diagnostic of the ValueError
    handler, for any record index. *)
Theorem malformed_diagnostic_never_printed rank input_file processes
    stype squery (i : Z) :
  APrint [PStr "Malformed JSON in tweet "; PInt i]
  ∉ (process_tweets rank input_file processes stype squery).1.
Proof.
  pose proof (process_tweets_cases rank input_file processes stype squery) as H.
  destruct input_file as [|[line|] rows].
  - rewrite H. apply not_elem_of_nil.
  - destruct H as [e ->]. apply not_elem_of_nil.
  - rewrite H. simpl. intros Hin.
    apply list_elem_of_singleton in Hin. discriminate Hin.
Qed.

(** ** The Coordinator and its workers together *)

Lemma master_when_served (comm : communicator) (input_file : list csv_item)
    (stype squery : string) t0 occurrences (ts : list CountTable) :
  process_tweets (Get_rank comm) input_file (Get_size comm) stype squery
  = (t0, Ok occurrences) →
  Z.of_nat (List.length ts) = Get_size comm - 1 →
  (∀ i t, ts !! i = Some t →
     first_message (Z.of_nat i + 1) MASTER_RANK (mailbox comm)
     = Some (PCounts t)) →
  master_tweet_processor comm input_file stype squery
  = (t0 ++ requests (Get_size comm) ++ receipts ts ++ merges ts
        ++ releases (Get_size comm),
     Ok (foldl merge occurrences ts)).
Proof.
  intros Hown Hlen Hmb.
  unfold master_tweet_processor. rewrite Hown, bind_ok.
  destruct (1 <? Get_size comm) eqn:Hsize.
  - rewrite (marshall_tweet_trace comm ts Hlen Hmb).
    rewrite bind_ok, merge_all_counts, bind_ok, for_each_send, bind_ok.
    rewrite sends_to_ranks. cbn [fst snd mret M_ret].
    by rewrite app_nil_r, <- !app_assoc.
  - apply Z.ltb_ge in Hsize.
    destruct ts as [|t ts]; [|simpl in Hlen; lia].
    unfold requests, releases.
    replace (Get_size comm - 1) with (Z.of_nat 0) by (simpl in Hlen; lia).
    reflexivity.
Qed.

Lemma recv_counts_blocks (ranks : list Z) :
  ∀ (mb : list envelope) (counts : list pyobj) (r : Z),
    r ∈ ranks →
    first_message (r + 1) MASTER_RANK mb = None →
    ∃ tr, recv_counts mb counts ranks = (tr, Abort Blocked) ∧
          Forall (fun a => is_recv a = true) tr.
Proof.
  induction ranks as [|i ranks IH]; intros mb counts r Hr Hnone.
  - by apply elem_of_nil in Hr.
  - cbn [recv_counts]. unfold recv.
    destruct (take_message (i + 1) MASTER_RANK mb) as [[d mb']|] eqn:Htake.
    + assert (r ≠ i) as Hne.
      { intros ->. unfold first_message in Hnone. by rewrite Htake in Hnone. }
      apply elem_of_cons in Hr as [?|Hr]; [done|].
      destruct (IH mb' (counts ++ [d]) r Hr) as (tr & Htr & Hrecv).
      { rewrite (first_message_other (i + 1) _ _ _ mb mb' Htake) by lia.
        done. }
      exists (ARecv (i + 1) MASTER_RANK d :: tr).
      unfold emit. repeat (rewrite bind_ok; cbn [fst snd mret M_ret app]).
      rewrite Htr. split; [done|]. by constructor.
    + exists []. split; [done|constructor].
Qed.

(** When the table of some rank 1..N-1 never comes, the Coordinator,
    once its own counting pass has returned, sends every request, then
    only receives, and stays in a receive: it merges nothing and sends no
    [exit]. *)
Theorem coordinator_blocks_on_missing_table (comm : communicator)
    (input_file : list csv_item) (stype squery : string) t0 occurrences r :
  process_tweets (Get_rank comm) input_file (Get_size comm) stype squery
  = (t0, Ok occurrences) →
  1 ≤ r < Get_size comm →
  first_message r MASTER_RANK (mailbox comm) = None →
  ∃ tr, master_tweet_processor comm input_file stype squery
        = (t0 ++ requests (Get_size comm) ++ tr, Abort Blocked) ∧
        Forall (fun a => is_recv a = true) tr.
Proof.
  intros Hown Hr Hnone.
  destruct (recv_counts_blocks (range (Get_size comm - 1)) (mailbox comm) []
              (r - 1)) as (tr & Htr & Hrecv).
  { unfold range. apply elem_of_seqZ. lia. }
  { by replace (r - 1 + 1) with r by lia. }
  exists tr. split; [|done].
  unfold master_tweet_processor. rewrite Hown, bind_ok.
  replace (1 <? Get_size comm) with true by (symmetry; apply Z.ltb_lt; lia).
  unfold marshall_tweet.
  rewrite (for_each_send (PStr "return_data")), bind_ok, Htr, sends_to_ranks.
  reflexivity.
Qed.

Lemma coordinator_blocks_on_missing_table_witness :
  ∃ tr,
    master_tweet_processor
      (Communicator 0 3 [Envelope 2 MASTER_RANK (PCounts table_b)])
      [] "mentions" ""
    = ([] ++ requests 3 ++ tr, Abort Blocked) ∧
    Forall (fun a => is_recv a = true) tr.
Proof.
  apply (coordinator_blocks_on_missing_table
           (Communicator 0 3 [Envelope 2 MASTER_RANK (PCounts table_b)])
           [] "mentions" "" [] ∅ 1).
  - reflexivity.
  - simpl. lia.
  - reflexivity.
Defined.

Lemma first_message_found (source tag : Z) (o : pyobj) (mb : list envelope) :
  Envelope source tag o ∈ mb →
  (∀ e, e ∈ mb → e_source e = source → e_tag e = tag → e_obj e = o) →
  first_message source tag mb = Some o.
Proof.
  unfold first_message. induction mb as [|a mb IH]; intros Hin Hall.
  - by apply elem_of_nil in Hin.
  - simpl.
    destruct ((e_source a =? source) && (e_tag a =? tag)) eqn:Hhit.
    + apply andb_true_iff in Hhit as [Hs Ht].
      apply Z.eqb_eq in Hs, Ht. simpl. f_equal.
      apply Hall; [left|done|done].
    + apply elem_of_cons in Hin as [<-|Hin].
      { simpl in Hhit. by rewrite !Z.eqb_refl in Hhit. }
      specialize (IH Hin).
      destruct (take_message source tag mb) as [[]|]; simpl in *.
      * apply IH. intros e He. apply Hall. by right.
      * discriminate IH. intros e He. apply Hall. by right.
Qed.

Lemma first_message_answers (mb : list envelope) (ts : list CountTable)
    (i : nat) (t : CountTable) :
  mb ≡ₚ answers ts → ts !! i = Some t →
  first_message (Z.of_nat i + 1) MASTER_RANK mb = Some (PCounts t).
Proof.
  intros Hperm Hi. apply first_message_found.
  - rewrite Hperm. unfold answers. apply elem_of_lookup_imap. eauto.
  - intros e He Hsource _. rewrite Hperm in He.
    apply elem_of_lookup_imap in He as (j & t' & -> & Hj).
    simpl in *. assert (j = i) as -> by lia. congruence.
Qed.

Lemma commands_to_app (r : Z) (t1 t2 : list action) :
  commands_to r (t1 ++ t2) = commands_to r t1 ++ commands_to r t2.
Proof. apply omap_app. Qed.

Lemma commands_to_cons (r : Z) (a : action) (tr : list action) :
  commands_to r (a :: tr)
  = match a with
    | ASend obj dest tag =>
        if (dest =? r) && (tag =? r) then obj :: commands_to r tr
        else commands_to r tr
    | _ => commands_to r tr
    end.
Proof.
  destruct a as [| obj dest tag | |]; try done.
  unfold commands_to. simpl. by destruct ((dest =? r) && (tag =? r)).
Qed.

Lemma commands_to_no_send (r : Z) (tr : list action) :
  Forall (fun a => is_send a = false) tr → commands_to r tr = [].
Proof.
  induction 1 as [|a tr Ha _ IH]; [done|].
  rewrite commands_to_cons, IH. by destruct a.
Qed.

Lemma commands_to_ranks (obj : pyobj) (r : Z) (ranks : list Z) :
  NoDup ranks →
  commands_to r ((fun r' => ASend obj r' r') <$> ranks)
  = if decide (r ∈ ranks) then [obj] else [].
Proof.
  induction 1 as [|x ranks Hx _ IH]; [done|].
  rewrite fmap_cons, commands_to_cons, IH.
  destruct (Z.eqb_spec x r) as [->|Hne]; simpl.
  - rewrite (decide_False (P := r ∈ ranks)) by done.
    by rewrite decide_True by left.
  - destruct (decide (r ∈ ranks)).
    + by rewrite decide_True by (by right).
    + rewrite decide_False; [done|]. rewrite elem_of_cons.
      intros [?|?]; [congruence|done].
Qed.

(** When the counting passes have returned and the answers of the
    workers stand in the Coordinator's mailbox, in any order of arrival,
    the Coordinator ends with its own table merged with theirs; and the
    commands it has sent to a rank, received in this order by the worker
    of that rank, make the worker answer once with its table and then exit
    with status 0. *)
Theorem protocol_round_trip (comm : communicator)
    (input_file : list csv_item) (stype squery : string)
    t0 occurrences (ts : list CountTable) :
  process_tweets (Get_rank comm) input_file (Get_size comm) stype squery
  = (t0, Ok occurrences) →
  Z.of_nat (List.length ts) = Get_size comm - 1 →
  mailbox comm ≡ₚ answers ts →
  (master_tweet_processor comm input_file stype squery).2
  = Ok (foldl merge occurrences ts) ∧
  ∀ (i : nat) counts, ts !! i = Some counts →
    slave_loop (Z.of_nat i + 1) counts
      (commands_to (Z.of_nat i + 1)
         (master_tweet_processor comm input_file stype squery).1)
    = (ARecv MASTER_RANK (Z.of_nat i + 1) (PStr "return_data")
         :: answer (Z.of_nat i + 1) counts
         ++ [ARecv MASTER_RANK (Z.of_nat i + 1) (PStr "exit")],
       Exited 0).
Proof.
  intros Hown Hlen Hmb.
  rewrite (master_when_served comm input_file stype squery t0 occurrences ts
             Hown Hlen)
    by (intros i t Hi; by apply (first_message_answers _ ts)).
  split; [done|]. intros i counts Hi. cbn [fst].
  pose proof (process_tweets_silent (Get_rank comm) input_file
                (Get_size comm) stype squery) as Hsilent.
  rewrite Hown in Hsilent. cbn [fst] in Hsilent.
  apply lookup_lt_Some in Hi.
  assert (Z.of_nat i + 1 ∈ seqZ 1 (Get_size comm - 1)) as Hin
    by (apply elem_of_seqZ; lia).
  rewrite !commands_to_app.
  rewrite (commands_to_no_send _ t0), (commands_to_no_send _ (receipts ts)),
    (commands_to_no_send _ (merges ts)).
  - unfold requests, releases.
    rewrite !commands_to_ranks by apply NoDup_seqZ.
    rewrite !decide_True by done. reflexivity.
  - unfold merges. apply Forall_fmap. by apply Forall_true.
  - unfold receipts. apply Forall_forall. intros a Ha.
    apply elem_of_lookup_imap in Ha as (j & t & -> & _). done.
  - eapply Forall_impl; [exact Hsilent|]. by intros [].
Qed.

Lemma protocol_round_trip_witness :
  mailbox rank2_first ≡ₚ answers [table_a; table_b] ∧
  (master_tweet_processor rank2_first [] "mentions" "").2
  = Ok (foldl merge ∅ [table_a; table_b]) ∧
  ∀ (i : nat) counts, [table_a; table_b] !! i = Some counts →
    slave_loop (Z.of_nat i + 1) counts
      (commands_to (Z.of_nat i + 1)
         (master_tweet_processor rank2_first [] "mentions" "").1)
    = (ARecv MASTER_RANK (Z.of_nat i + 1) (PStr "return_data")
         :: answer (Z.of_nat i + 1) counts
         ++ [ARecv MASTER_RANK (Z.of_nat i + 1) (PStr "exit")],
       Exited 0).
Proof.
  assert (mailbox rank2_first ≡ₚ answers [table_a; table_b]) as Hperm
    by apply perm_swap.
  split; [exact Hperm|].
  apply (protocol_round_trip rank2_first [] "mentions" "" [] ∅
           [table_a; table_b]).
  - reflexivity.
  - reflexivity.
  - exact Hperm.
Defined.

(** ** The worker over a whole stream of messages *)

Lemma slave_command_cases (rank : Z) (counts : CountTable) (v : pyobj) :
  slave_command rank counts v
  = if is_request v then (answer rank counts, Continue)
    else if is_release v then ([], Terminate 0)
    else ([], Continue).
Proof.
  destruct v as [| |c| |]; try done.
  unfold slave_command, is_request, is_release.
  destruct (str_in c "return_data"); [done|].
  by destruct (str_in c "exit").
Qed.

Lemma slave_loop_cons (rank : Z) (counts : CountTable) (v : pyobj)
    (incoming : list pyobj) :
  slave_loop rank counts (v :: incoming)
  = if is_request v then
      (ARecv MASTER_RANK rank v
         :: answer rank counts ++ (slave_loop rank counts incoming).1,
       (slave_loop rank counts incoming).2)
    else if is_release v then ([ARecv MASTER_RANK rank v], Exited 0)
    else (ARecv MASTER_RANK rank v :: (slave_loop rank counts incoming).1,
          (slave_loop rank counts incoming).2).
Proof.
  cbn [slave_loop]. rewrite slave_command_cases.
  destruct (is_request v); [|destruct (is_release v)];
    by destruct (slave_loop rank counts incoming).
Qed.

(** Whatever reaches it, a worker raises nothing and merges nothing; all
    it sends is its own table, unchanged, to rank 0 with tag 0; and it
    stops only by exiting with status 0 or by waiting in a receive. *)
Theorem worker_sends_only_its_table (rank : Z) (counts : CountTable)
    (incoming : list pyobj) :
  Forall (worker_action counts) (slave_loop rank counts incoming).1 ∧
  ((slave_loop rank counts incoming).2 = Exited 0 ∨
   (slave_loop rank counts incoming).2 = Blocked).
Proof.
  induction incoming as [|v incoming [IHt IHs]]; [by split; [constructor|right]|].
  rewrite slave_loop_cons.
  destruct (is_request v); [|destruct (is_release v)]; cbn [fst snd].
  - split; [|done]. by repeat constructor.
  - split; [|by left]. by repeat constructor.
  - split; [|done]. by constructor.
Qed.

(** Nothing that follows the command that makes it exit reaches the
    worker: the run is the same as if the stream ended there. *)
Theorem worker_stops_at_release (rank : Z) (counts : CountTable)
    (before after : list pyobj) (v : pyobj) :
  is_release v = true →
  slave_loop rank counts (before ++ v :: after)
  = slave_loop rank counts (before ++ [v]).
Proof.
  intros Hv.
  assert (is_request v = false) as Hreq.
  { destruct v as [| |c| |]; try done.
    unfold is_request, is_release in *.
    by destruct (str_in c "return_data"). }
  induction before as [|u before IH]; simpl app.
  - by rewrite !slave_loop_cons, Hreq, Hv.
  - rewrite !slave_loop_cons, IH. done.
Qed.

Lemma worker_stops_at_release_witness :
  is_release (PStr "xi") = true ∧
  slave_loop 2 table_a
    ([PInt 1; PStr "data"] ++ PStr "xi" :: [PStr "return_data"])
  = slave_loop 2 table_a ([PInt 1; PStr "data"] ++ [PStr "xi"]).
Proof.
  split; [reflexivity|].
  by apply (worker_stops_at_release 2 table_a [PInt 1; PStr "data"]
              [PStr "return_data"] (PStr "xi")).
Defined.

(** A worker that is never told to exit receives every message, answers
    each request with one send, and then waits for ever. *)
Theorem worker_without_release_blocks (rank : Z) (counts : CountTable)
    (incoming : list pyobj) :
  Forall (fun v => is_release v = false) incoming →
  (slave_loop rank counts incoming).2 = Blocked ∧
  filter (fun a => is_recv a = true) (slave_loop rank counts incoming).1
  = ARecv MASTER_RANK rank <$> incoming ∧
  List.length (filter (fun a => is_send a = true)
                 (slave_loop rank counts incoming).1)
  = List.length (filter (fun v => is_request v = true) incoming).
Proof.
  induction 1 as [|v incoming Hv _ (IHs & IHr & IHn)]; [done|].
  rewrite slave_loop_cons, Hv.
  destruct (is_request v) eqn:Hreq; cbn [fst snd].
  - split; [done|]. split.
    + rewrite filter_cons_True by done. unfold answer.
      rewrite <- (app_comm_cons _ _ (APrint _)), filter_cons_False by done.
      rewrite <- app_comm_cons, filter_cons_False by done.
      simpl. by rewrite IHr.
    + rewrite filter_cons_False by done. unfold answer.
      rewrite <- (app_comm_cons _ _ (APrint _)), filter_cons_False by done.
      rewrite <- app_comm_cons, filter_cons_True by done.
      rewrite (filter_cons_True _ v) by done. simpl. by rewrite IHn.
  - split; [done|]. split.
    + rewrite filter_cons_True by done. simpl. by rewrite IHr.
    + rewrite filter_cons_False by done.
      by rewrite (filter_cons_False _ v) by (by rewrite Hreq).
Qed.

Lemma worker_without_release_blocks_witness :
  Forall (fun v => is_release v = false)
         [PStr "return_data"; PNone; PStr ""; PStr "quit"] ∧
  (slave_loop 1 table_a [PStr "return_data"; PNone; PStr ""; PStr "quit"]).2
  = Blocked ∧
  List.length
    (filter (fun a => is_send a = true)
       (slave_loop 1 table_a
          [PStr "return_data"; PNone; PStr ""; PStr "quit"]).1)
  = 2%nat.
Proof.
  assert (Forall (fun v => is_release v = false)
            [PStr "return_data"; PNone; PStr ""; PStr "quit"]) as H
    by (by repeat constructor).
  split; [exact H|].
  destruct (worker_without_release_blocks 1 table_a _ H) as (Hs & _ & Hn).
  split; [exact Hs|]. rewrite Hn. reflexivity.
Defined.

(** ** The command line *)

Lemma getopt_from_prepend (shortopts : string) (args : list string) :
  ∀ (pre opts : list (string * string)) (skip : bool),
    getopt_from shortopts (pre ++ opts) skip args
    = with_opts pre (getopt_from shortopts opts skip args).
Proof.
  induction args as [|a args IH]; intros pre opts skip; [done|].
  cbn [getopt_from]. destruct skip; [apply IH|].
  destruct (starts_with "-" a && negb (String.eqb a "-")); [|done].
  destruct (String.eqb a "--"); [done|].
  destruct (strip_prefix "--" a); [done|].
  destruct (do_shorts shortopts (but_first a) (head args))
    as [msg|[new taken]]; [done|].
  rewrite <- app_assoc. apply IH.
Qed.

(** The loop over the options never selects a mode of its own making:
    the search type it returns is the one it started with or
    [string_search], and it prints nothing when it returns. *)
Lemma read_opts_inv (opts : list (string * string)) :
  ∀ input_file search_type search_query tr res,
    read_opts opts input_file search_type search_query = (tr, Ok res) →
    tr = [] ∧ (res.1.2 = search_type ∨ res.1.2 = "string_search").
Proof.
  induction opts as [|[opt arg] opts IH];
    intros input_file search_type search_query tr res; cbn [read_opts].
  - intros [= <- <-]. eauto.
  - destruct (String.eqb opt "-h"); [discriminate|].
    destruct (str_in opt "-i"); [apply IH|].
    destruct (str_in opt "-m"); [apply IH|].
    destruct (str_in opt "-s"); [|apply IH].
    intros H. apply IH in H as [-> [->| ->]]; eauto.
Qed.

(** Whatever the command line, the search type that [read_arguments]
    returns is [mentions] or [string_search]: no option selects the
    topics. *)
Theorem read_arguments_never_selects_topics (argv : list string) tr
    (input_file stype squery : string) :
  read_arguments argv = (tr, Ok (input_file, stype, squery)) →
  tr = [] ∧ (stype = "mentions" ∨ stype = "string_search").
Proof.
  unfold read_arguments.
  destruct (getopt argv "hi:tms:") as [opts args|msg]; [|discriminate].
  intros H. by apply read_opts_inv in H.
Qed.

Lemma read_arguments_never_selects_topics_witness :
  read_arguments ["-t"; "-i"; "tweets.csv"]
  = ([], Ok ("tweets.csv", "mentions", "")) ∧
  ([] = @nil action ∧ ("mentions" = "mentions" ∨ "mentions" = "string_search")).
Proof.
  split; [reflexivity|].
  apply (read_arguments_never_selects_topics ["-t"; "-i"; "tweets.csv"] []
           "tweets.csv" "mentions" "").
  reflexivity.
Defined.

(** The flag [-t] in front changes nothing: the run is the one of the
    rest of the command line. *)
Theorem read_arguments_ignores_t (argv : list string) :
  read_arguments ("-t" :: argv) = read_arguments argv.
Proof.
  unfold read_arguments, getopt.
  change (getopt_from "hi:tms:" [] false ("-t" :: argv))
    with (getopt_from "hi:tms:" ([("-t", "")] ++ []) false argv).
  rewrite getopt_from_prepend.
  by destruct (getopt_from "hi:tms:" [] false argv).
Qed.

(** The flag [-h] in front of a command line that parses prints the
    usage text and nothing else, and exits with status 0: the options
    after it have no effect. *)
Theorem read_arguments_help_first (argv : list string) opts args :
  getopt argv "hi:tms:" = Parsed opts args →
  read_arguments ("-h" :: argv) = (usage, Abort (Exited 0)).
Proof.
  unfold read_arguments, getopt. intros Hparse.
  change (getopt_from "hi:tms:" [] false ("-h" :: argv))
    with (getopt_from "hi:tms:" ([("-h", "")] ++ []) false argv).
  by rewrite getopt_from_prepend, Hparse.
Qed.

Lemma read_arguments_help_first_witness :
  getopt ["-s"; "hello"; "-i"; "tweets.csv"] "hi:tms:"
  = Parsed [("-s", "hello"); ("-i", "tweets.csv")] [] ∧
  read_arguments ["-h"; "-s"; "hello"; "-i"; "tweets.csv"]
  = (usage, Abort (Exited 0)).
Proof.
  split; [reflexivity|].
  by apply (read_arguments_help_first ["-s"; "hello"; "-i"; "tweets.csv"]
              [("-s", "hello"); ("-i", "tweets.csv")] []).
Defined.

(** The file name and the query come back as they are written, whatever
    characters they hold, as the argument that follows [-i] or [-s] and,
    when they are not empty, glued to the flag. *)
Theorem read_arguments_round_trip (file query : string) (c d : ascii)
    (file' query' : string) :
  read_arguments ["-i"; file; "-s"; query]
  = mret (file, "string_search", query) ∧
  read_arguments ["-s"; query; "-i"; file]
  = mret (file, "string_search", query) ∧
  read_arguments [String "-" (String "i" (String c file'));
                  String "-" (String "s" (String d query'))]
  = mret (String c file', "string_search", String d query').
Proof. by split_and!. Qed.

(** A first argument that is not an option ends the parsing: the
    defaults come back, whatever follows.  So does the argument [--]. *)
Theorem read_arguments_stops_at_operand (a : string) (rest : list string) :
  starts_with "-" a = false ∨ a = "-" ∨ a = "--" →
  read_arguments (a :: rest) = mret ("", "mentions", "").
Proof.
  unfold read_arguments, getopt. cbn [getopt_from].
  intros [Ha|[->| ->]]; [|done|done]. by rewrite Ha.
Qed.

Lemma read_arguments_stops_at_operand_witness :
  (starts_with "-" "tweets.csv" = false ∨ "tweets.csv" = "-"
   ∨ "tweets.csv" = "--") ∧
  read_arguments ["tweets.csv"; "-s"; "hello"] = mret ("", "mentions", "").
Proof.
  split; [by left|].
  apply (read_arguments_stops_at_operand "tweets.csv" ["-s"; "hello"]).
  by left.
Defined.

(** An option that is not recognized, in first position, ends the run
    with status 2 after the message of the error and the usage text: an
    argument that starts with two dashes and goes on, and a letter
    other than the dash that is not among [h], [i], [t], [m] and [s]. *)
Theorem read_arguments_rejects_unknown (c : ascii) (long : string)
    (x : ascii) (letters : string) (rest : list string) :
  short_has_arg x "hi:tms:" = None → x ≠ "-"%char →
  read_arguments (String "-" (String "-" (String c long)) :: rest)
  = usage_error ("option --" +:+ before_equals (String c long)
                 +:+ " not recognized") ∧
  read_arguments (String "-" (String x letters) :: rest)
  = usage_error ("option " +:+ dash x +:+ " not recognized").
Proof.
  intros Hx Hdash. split; [done|].
  unfold read_arguments, getopt. cbn [getopt_from].
  change (starts_with "-" (String "-" (String x letters))) with true.
  change (String.eqb (String "-" (String x letters)) "-") with false.
  cbn [andb negb].
  replace (String.eqb (String "-" (String x letters)) "--") with false.
  2:{ symmetry. apply String.eqb_neq. intros [= -> _]. done. }
  replace (strip_prefix "--" (String "-" (String x letters))) with (@None string).
  2:{ cbn [strip_prefix]. change (Ascii.eqb "-" "-") with true. cbv iota.
      destruct (Ascii.eqb_spec "-" x) as [<-|]; done. }
  cbn [but_first do_shorts]. rewrite Hx. reflexivity.
Qed.

Lemma read_arguments_rejects_unknown_witness :
  short_has_arg "x" "hi:tms:" = None ∧ "x"%char ≠ "-"%char ∧
  read_arguments ["--topics=yes"; "-m"]
  = usage_error "option --topics not recognized" ∧
  read_arguments ["-x"; "-m"] = usage_error "option -x not recognized".
Proof.
  split; [reflexivity|]. split; [discriminate|].
  by apply (read_arguments_rejects_unknown "t" "opics=yes" "x" "" ["-m"]).
Defined.

(** ** The presentation *)

Lemma insert_by_count_perm (x : string * Z) (l : list (string * Z)) :
  insert_by_count x l ≡ₚ x :: l.
Proof.
  induction l as [|y l IH]; simpl; [done|].
  destruct (x.2 <=? y.2); [done|].
  rewrite IH. apply perm_swap.
Qed.

Lemma sorted_by_count_perm (items : list (string * Z)) :
  sorted_by_count items ≡ₚ items.
Proof.
  induction items as [|x items IH]; simpl; [done|].
  by rewrite insert_by_count_perm, IH.
Qed.

Lemma insert_by_count_sorted (x : string * Z) (l : list (string * Z)) :
  StronglySorted (fun a b => a.2 ≤ b.2) l →
  StronglySorted (fun a b => a.2 ≤ b.2) (insert_by_count x l).
Proof.
  induction l as [|y l IH]; simpl; intros Hl.
  - repeat constructor.
  - apply StronglySorted_cons in Hl as [Hy Hl].
    destruct (Z.leb_spec x.2 y.2) as [Hle|Hgt].
    + apply StronglySorted_cons. split.
      * constructor; [done|].
        eapply Forall_impl; [exact Hy|]. simpl. intros; lia.
      * by apply StronglySorted_cons.
    + apply StronglySorted_cons. split; [|by apply IH].
      rewrite insert_by_count_perm. constructor; [lia|done].
Qed.

Lemma sorted_by_count_sorted (items : list (string * Z)) :
  StronglySorted (fun a b => a.2 ≤ b.2) (sorted_by_count items).
Proof.
  induction items as [|x items IH]; simpl; [constructor|].
  by apply insert_by_count_sorted.
Qed.

(** The sort is stable: the items with a given count keep the order
    they have in the dict. *)
Lemma with_count_insert (c : Z) (x : string * Z) (l : list (string * Z)) :
  with_count c (insert_by_count x l) = with_count c (x :: l).
Proof.
  unfold with_count. induction l as [|y l IH]; simpl; [done|].
  destruct (Z.leb_spec x.2 y.2) as [Hle|Hgt]; [done|].
  rewrite (filter_cons _ y), IH, !(filter_cons _ x), (filter_cons _ y).
  destruct (decide (x.2 = c)), (decide (y.2 = c)); try done. lia.
Qed.

Lemma sorted_by_count_stable (c : Z) (items : list (string * Z)) :
  with_count c (sorted_by_count items) = with_count c items.
Proof.
  induction items as [|x items IH]; simpl; [done|].
  rewrite with_count_insert. unfold with_count in *.
  by rewrite !(filter_cons _ x), IH.
Qed.

Lemma StronglySorted_reverse {A} (R : relation A) (l : list A) :
  StronglySorted R l → StronglySorted (flip R) (reverse l).
Proof.
  induction 1 as [|x l _ IH Hx]; [constructor|].
  rewrite reverse_cons. apply StronglySorted_app. split_and!.
  - intros a b Ha Hb. apply list_elem_of_singleton in Hb as ->.
    rewrite elem_of_reverse in Ha. unfold flip.
    by eapply Forall_forall in Hx.
  - done.
  - repeat constructor.
Qed.

Lemma for_each_print_count (entries : list (string * Z)) :
  for_each entries print_count = (count_lines entries, Ok tt).
Proof.
  induction entries as [|[user times] entries IH]; [done|].
  simpl. rewrite IH. reflexivity.
Qed.

(** [print_mentions] and [print_topics] print their heading and then one
    line for each of the entries of [top_ten]: as many as the table has,
    ten at most, with counts that never go up from one line to the next;
    together with the entries left out they are the items of the table,
    and no entry left out has a count above one that is printed. *)
Theorem top_ten_ranking (items : list (string * Z)) :
  print_mentions items
  = (APrint [PStr "The top ten users mentioned are:"]
       :: count_lines (top_ten items), Ok tt) ∧
  print_topics items
  = (APrint [PStr "The top ten trending topics are:"]
       :: count_lines (top_ten items), Ok tt) ∧
  List.length (top_ten items) = (List.length items `min` 10)%nat ∧
  StronglySorted (fun a b => b.2 ≤ a.2) (top_ten items) ∧
  ∃ rest, items ≡ₚ top_ten items ++ rest ∧
          Forall (fun x => Forall (fun y => x.2 ≤ y.2) (top_ten items)) rest.
Proof.
  pose proof (sorted_by_count_perm items) as Hperm.
  pose proof (sorted_by_count_sorted items) as Hsorted.
  unfold print_mentions, print_topics, top_ten.
  set (sorted_counts := sorted_by_count items) in *.
  set (k := (List.length sorted_counts - 10)%nat).
  pose proof (Permutation_length Hperm) as Hlen.
  rewrite <- (take_drop k sorted_counts) in Hsorted, Hperm.
  apply StronglySorted_app in Hsorted as (Hcut & _ & Hdrop).
  split_and!.
  - rewrite for_each_print_count. reflexivity.
  - rewrite for_each_print_count. reflexivity.
  - rewrite length_reverse, length_drop. subst k. lia.
  - by apply (StronglySorted_reverse (fun a b => a.2 ≤ b.2)).
  - exists (take k sorted_counts). split.
    + by rewrite reverse_Permutation, (comm (++)).
    + apply Forall_forall. intros x Hx.
      apply Forall_forall. intros y Hy.
      rewrite elem_of_reverse in Hy. by apply Hcut.
Qed.

(** Entries with the same count are printed latest inserted first, and
    where the cut at ten falls among them it is the earliest inserted
    that are left out. *)
Theorem top_ten_ties (c : Z) (items : list (string * Z)) :
  with_count c (top_ten items) `prefix_of` reverse (with_count c items).
Proof.
  unfold top_ten.
  set (sorted_counts := sorted_by_count items).
  set (k := (List.length sorted_counts - 10)%nat).
  exists (reverse (with_count c (take k sorted_counts))).
  rewrite <- (sorted_by_count_stable c items). fold sorted_counts.
  rewrite <- (take_drop k sorted_counts) at 1.
  unfold with_count. by rewrite filter_app, reverse_app, filter_reverse.
Qed.

Lemma starts_with_prefixes (a b : string) :
  starts_with a b = true → a ∈ prefixes b.
Proof.
  revert a. induction b as [|c b IH]; intros [|d a]; simpl; try done.
  - intros _. left.
  - intros _. left.
  - intros [Hc Ha]%andb_true_iff. apply Ascii.eqb_eq in Hc as ->.
    right. apply list_elem_of_fmap_2. by apply IH.
Qed.

Lemma str_in_substrings (a b : string) :
  str_in a b = true → a ∈ substrings b.
Proof.
  induction b as [|c b IH]; cbn [str_in substrings].
  - rewrite orb_false_r, app_nil_r. apply starts_with_prefixes.
  - intros [H|H]%orb_true_iff; apply elem_of_app.
    + left. by apply (starts_with_prefixes a (String c b)).
    + right. by apply IH.
Qed.

(** Whenever the mode selects a counting function in [process_tweet],
    [print_output] prints with the function of the same kind: the
    mentions for a mode found in [mentions], the topics for one found in
    [topic], the matches of the query otherwise. *)
Theorem print_output_follows_process_tweet (results : list (string * Z))
    (stype squery : string) :
  selects_counting stype = true →
  print_output results stype squery
  = if str_in stype "mentions" then print_mentions results
    else if str_in stype "topic" then print_topics results
    else print_matches results squery.
Proof.
  unfold selects_counting, print_output.
  destruct (str_in stype "mentions") eqn:Hm; [done|].
  destruct (str_in stype "topic") eqn:Ht; cbn [orb].
  - intros _. apply str_in_substrings in Ht.
    assert (Forall (fun a => str_in a "topics" = true) (substrings "topic"))
      as Hall by (apply Forall_forall; intros a Ha;
                  repeat (apply elem_of_cons in Ha as [->|Ha]; [done|]);
                  by apply elem_of_nil in Ha).
    eapply Forall_forall in Hall; [|exact Ht]. by rewrite Hall.
  - intros Hs. rewrite Hs.
    destruct (str_in stype "topics") eqn:Hts; [|done].
    apply str_in_substrings in Hts.
    assert (Forall (fun a => str_in a "mentions" || str_in a "topic"
                             || negb (str_in a "string_search") = true)
                   (substrings "topics"))
      as Hall by (apply Forall_forall; intros a Ha;
                  repeat (apply elem_of_cons in Ha as [->|Ha]; [done|]);
                  by apply elem_of_nil in Ha).
    eapply Forall_forall in Hall; [|exact Hts].
    by rewrite Hm, Ht, Hs in Hall.
Qed.

Lemma print_output_follows_process_tweet_witness :
  selects_counting "topi" = true ∧
  print_output [("#a", 2)] "topi" "" = print_topics [("#a", 2)].
Proof.
  split; [reflexivity|].
  by apply (print_output_follows_process_tweet [("#a", 2)] "topi" "").
Defined.

(** The flag [-m] sets the query, not the search type: on its own it
    leaves the type at its default with the query [mentions]; a query
    given by [-s] after it replaces that, and given before it is replaced
    by the word [mentions], the type staying [string_search]. *)
Theorem read_arguments_m_sets_query (file query : string) :
  read_arguments ["-i"; file; "-m"] = mret (file, "mentions", "mentions") ∧
  read_arguments ["-m"; "-s"; query] = mret ("", "string_search", query) ∧
  read_arguments ["-s"; query; "-m"] = mret ("", "string_search", "mentions").
Proof. by split_and!. Qed.

Lemma belongs_exactly_one_rank_witness :
  0 < 4 ∧
  ∃ r, 0 ≤ r < 4 ∧
       ∀ rank, belongs 10 4 rank = mret (bool_decide (r = rank)).
Proof.
  split; [lia|]. apply (belongs_exactly_one_rank 10 4). lia.
Defined.
